(** * nextava-widget: the data pipeline of [nextava-widget.js]

    A shallow embedding of the widget's tokenizer ([parseCSV]), record
    resolver ([findClinic]), relative-time formatter ([timeAgo]) and
    freshness cache ([getData]), followed by the properties proved of them.

    Strings are [string]s whose characters stand for the code units
    0..255 of a JavaScript string; tables are lists of lists of strings;
    the record object built by [findClinic] is the finite map of its own
    properties, from field names to cells; instants are integer
    milliseconds in [Z]. *)

From Stdlib Require Import ZArith Ascii String List Bool Lia.
From stdpp Require Import base option list strings gmap pretty.

Local Open Scope string_scope.
Local Open Scope Z_scope.
Local Open Scope list_scope.

(** ** String primitives of the host language *)

Module JSString.

(** [WhiteSpace] and [LineTerminator] code units below 256: TAB, LF, VT,
    FF, CR, SP and NBSP; this is what [String.prototype.trim] strips. *)
Definition is_whitespace (c : ascii) : bool :=
  let n := N_of_ascii c in
  ((9 <=? n) && (n <=? 13) || (n =? 32) || (n =? 160))%N.

Fixpoint trimStart (s : string) : string :=
  match s with
  | EmptyString => EmptyString
  | String c rest => if is_whitespace c then trimStart rest else s
  end.

(** [trimEnd] keeps a character when it is not white space or when
    something survives to its right. *)
Fixpoint trimEnd (s : string) : string :=
  match s with
  | EmptyString => EmptyString
  | String c rest =>
      match trimEnd rest with
      | EmptyString => if is_whitespace c then EmptyString else String c EmptyString
      | kept => String c kept
      end
  end.

Definition trim (s : string) : string := trimEnd (trimStart s).

(** Lower-casing of one code unit below 256: A-Z, and the Latin-1
    capitals U+00C0..U+00DE except the multiplication sign U+00D7. *)
Definition lower_char (c : ascii) : ascii :=
  let n := N_of_ascii c in
  if ((65 <=? n) && (n <=? 90) || (192 <=? n) && (n <=? 222) && negb (n =? 215))%N
  then ascii_of_N (n + 32)
  else c.

Fixpoint toLowerCase (s : string) : string :=
  match s with
  | EmptyString => EmptyString
  | String c rest => String (lower_char c) (toLowerCase rest)
  end.

(** Truthiness of a string value: every string but the empty one. *)
Definition truthy (s : string) : bool :=
  match s with EmptyString => false | String _ _ => true end.

(** [text[i + 1]] seen from position [i]: the first character of what
    follows, [None] standing for [undefined] past the end. *)
Definition peek (rest : string) : option ascii :=
  match rest with EmptyString => None | String c _ => Some c end.

Definition is_char (o : option ascii) (c : ascii) : bool :=
  match o with Some d => Ascii.eqb d c | None => false end.

End JSString.

(** ** CSV tokenizer: [parseCSV] *)

Module CSV.
Import JSString.

Definition DQUOTE : ascii := ascii_of_N 34.
Definition COMMA : ascii := ","%char.
Definition LF : ascii := ascii_of_N 10.
Definition CR : ascii := ascii_of_N 13.

Definition row := list string.
Definition table := list (list string).

(** The four mutable locals of [parseCSV]. *)
Record pstate := PState {
  lines : list (list string);
  currentLine : list string;
  currentField : string;
  inQuotes : bool
}.

Definition init : pstate :=
  {| lines := []; currentLine := []; currentField := ""; inQuotes := false |}.

Definition add_char (c : ascii) (st : pstate) : pstate :=
  {| lines := lines st; currentLine := currentLine st;
     currentField := currentField st +:+ String c ""; inQuotes := inQuotes st |}.

Definition toggle_quotes (st : pstate) : pstate :=
  {| lines := lines st; currentLine := currentLine st;
     currentField := currentField st; inQuotes := negb (inQuotes st) |}.

Definition push_field (st : pstate) : pstate :=
  {| lines := lines st; currentLine := currentLine st ++ [currentField st];
     currentField := ""; inQuotes := inQuotes st |}.

(** [if (currentField || currentLine.length > 0)] *)
Definition pending (st : pstate) : bool :=
  truthy (currentField st) || (0 <? length (currentLine st))%nat.

(** The guarded block that closes a row: push the field, push the line,
    reset both. *)
Definition end_row (st : pstate) : pstate :=
  if pending st then
    {| lines := lines st ++ [currentLine st ++ [currentField st]];
       currentLine := []; currentField := ""; inQuotes := inQuotes st |}
  else st.

(** One iteration of the [for] loop at character [char] with look-ahead
    [nextChar]; the boolean tells whether the body ran [i++]. *)
Definition step (char : ascii) (nextChar : option ascii) (st : pstate)
  : pstate * bool :=
  if Ascii.eqb char DQUOTE then
    if inQuotes st && is_char nextChar DQUOTE
    then (add_char DQUOTE st, true)
    else (toggle_quotes st, false)
  else if Ascii.eqb char COMMA && negb (inQuotes st) then
    (push_field st, false)
  else if (Ascii.eqb char LF || Ascii.eqb char CR) && negb (inQuotes st) then
    (end_row st, Ascii.eqb char CR && is_char nextChar LF)
  else
    (add_char char st, false).

(** The loop over the remaining text. *)
Fixpoint parse_loop (text : string) (st : pstate) : pstate :=
  match text with
  | EmptyString => st
  | String char rest =>
      let '(st', skip) := step char (peek rest) st in
      parse_loop
        (if skip then match rest with String _ rest' => rest' | EmptyString => rest end
         else rest)
        st'
  end.

Definition parseCSV (text : string) : table :=
  lines (end_row (parse_loop text init)).

End CSV.

(** ** Record resolver: [findClinic] *)

Module Resolver.
Import JSString CSV.

(** The result object [clinic]: own string-keyed properties. *)
Abbreviation record := (gmap string string).

(** [h => h && h.trim().toLowerCase() === 'clinicid'] *)
Definition is_clinicid_header (h : string) : bool :=
  truthy h && String.eqb (toLowerCase (trim h)) "clinicid".

(** [Array.prototype.findIndex]; [None] stands for [-1]. *)
Fixpoint findIndex {A : Type} (p : A -> bool) (l : list A) : option nat :=
  match l with
  | [] => None
  | x :: l' => if p x then Some 0%nat else S <$> findIndex p l'
  end.

(** [row[clinicIdColIndex] && row[clinicIdColIndex].trim() === clinicId];
    a missing cell is [undefined], which is falsy. *)
Definition row_matches (clinicIdColIndex : nat) (clinicId : string)
    (row : list string) : bool :=
  match row !! clinicIdColIndex with
  | Some cell => truthy cell && String.eqb (trim cell) clinicId
  | None => false
  end.

(** [row[index] || ''] *)
Definition cell_or_empty (row : list string) (index : nat) : string :=
  match row !! index with
  | Some cell => if truthy cell then cell else ""
  | None => ""
  end.

(** The assignment [clinic[header] = value] on an object made by the
    literal [{}], for a string [value]: it creates or overwrites an own
    property, except under the name [__proto__], which the accessor of
    [Object.prototype] takes; its setter ignores a value that is not an
    object, so nothing is stored. *)
Definition set_property (header value : string) (clinic : record) : record :=
  if String.eqb header "__proto__" then clinic else <[header := value]> clinic.

(** [headers.forEach((header, index) => { clinic[header] = row[index] || '' })],
    from position [index] on. *)
Fixpoint fill (headers : list string) (index : nat) (row : list string)
    (clinic : record) : record :=
  match headers with
  | [] => clinic
  | header :: headers' =>
      fill headers' (S index) row (set_property header (cell_or_empty row index) clinic)
  end.

(** The [for] loop over the data rows; it returns at the first match. *)
Fixpoint scan_rows (headers : list string) (clinicIdColIndex : nat)
    (clinicId : string) (data : list (list string)) : option record :=
  match data with
  | [] => None
  | row :: data' =>
      if row_matches clinicIdColIndex clinicId row
      then Some (fill headers 0 row ∅)
      else scan_rows headers clinicIdColIndex clinicId data'
  end.

(** [None] stands for the [null] result. *)
Definition findClinic (rows : table) (clinicId : string) : option record :=
  if (length rows <? 2)%nat then None
  else match rows with
       | [] => None
       | headers :: data =>
           match findIndex is_clinicid_header headers with
           | None => None
           | Some clinicIdColIndex =>
               scan_rows headers clinicIdColIndex clinicId data
           end
       end.

End Resolver.

(** ** Relative-time formatter: [timeAgo] *)

Module RelativeTime.
Import JSString.

(** The time value of a [Date]: integer milliseconds, or [NaN] for an
    invalid date. *)
Inductive date_value :=
| ValidDate (ms : Z)
| InvalidDate.

(** What evaluating [new Date(timestampString)] inside the [try] does. *)
Inductive date_outcome :=
| DateReturns (d : date_value)
| DateThrows.

Definition MS_PER_DAY : Z := 1000 * 60 * 60 * 24.

Section TimeAgo.
(** The host's date parser. *)
Variable Date_parse : string -> date_outcome.

(** [timestampString] is [None] for [undefined] (a record without the
    field); [now_cmp] is the clock read by [new Date()] in the
    future check and [now_elapsed] the one read by [Date.now()]. *)
Definition timeAgo (timestampString : option string)
    (now_cmp now_elapsed : Z) : option string :=
  match timestampString with
  | None => None
  | Some s =>
      if negb (truthy s) || String.eqb (trim s) "" then None
      else
        match Date_parse s with
        | DateThrows => None
        | DateReturns InvalidDate => None
        | DateReturns (ValidDate lastUpdated) =>
            if now_cmp <? lastUpdated then Some "recently"
            else
              let daysSince := (now_elapsed - lastUpdated) / MS_PER_DAY in
              if daysSince =? 0 then Some "today"
              else if daysSince =? 1 then Some "yesterday"
              else if daysSince <? 7 then Some (pretty daysSince +:+ " days ago")
              else
                let weeksSince := daysSince / 7 in
                if weeksSince =? 1 then Some "1 week ago"
                else if weeksSince =? 2 then Some "2 weeks ago"
                else if 3 <=? weeksSince then Some "3+ weeks ago"
                else Some (pretty daysSince +:+ " days ago")
        end
  end.
End TimeAgo.

End RelativeTime.

(** ** Freshness cache: [getData] *)

Module Cache.
Import JSString CSV.

(** [CONFIG] *)
Definition csvUrl : string :=
  "https://docs.google.com/spreadsheets/d/e/2PACX-1vQKBoPih3bSOhHQH42lkPiG4hSQ6BpFerB-afEeIwlIej2f-Rk7WzV019hqzsV1f0IJhgWmlfZLj68u/pub?gid=241242125&single=true&output=csv".
Definition cacheKey : string := "nextava_widget_cache".
Definition cacheDuration : Z := 5 * 60 * 1000.

(** Values that [JSON.parse] can produce; an object keeps its members in
    text order. Numbers are the integer-valued ones. *)
#[local] Unset Elimination Schemes.
Inductive json :=
| JNull
| JBool (b : bool)
| JNumber (n : Z)
| JString (s : string)
| JArray (items : list json)
| JObject (members : list (string * json)).
#[local] Set Elimination Schemes.

(** A value read out of a parsed blob: [None] stands for [undefined]. *)
Abbreviation value := (option json).

(** The result of an arithmetic coercion. *)
Inductive number :=
| Num (z : Z)
| NaN.

Inductive error :=
| SyntaxError
| TypeError
| Error (message : string)
| HostError (name : string).

Inductive outcome (A : Type) :=
| Returns (a : A)
| Throws (e : error).
Arguments Returns {A} a.
Arguments Throws {A} e.

(** A name-value pair list read as an object: the last member of a name
    is its property. *)
Fixpoint get_member (members : list (string * json)) (name : string) : value :=
  match members with
  | [] => None
  | (k, v) :: members' =>
      match get_member members' name with
      | Some v' => Some v'
      | None => if String.eqb k name then Some v else None
      end
  end.

(** Property read [v.name] for the names [data] and [timestamp], which
    no prototype defines: only an object's own member answers. *)
Definition get_prop (v : json) (name : string) : value :=
  match v with
  | JObject members => get_member members name
  | _ => None
  end.

(** [const { data, timestamp } = v]: a [TypeError] on [null]. *)
Definition destructure (v : json) : outcome (value * value) :=
  match v with
  | JNull => Throws TypeError
  | _ => Returns (get_prop v "data", get_prop v "timestamp")
  end.

(** The table [rows] as a value: an array of arrays of strings. *)
Definition json_of_table (rows : table) : json :=
  JArray (map (fun r => JArray (map JString r)) rows).

(** The object literal [{ data: rows, timestamp: timestamp }]. *)
Definition envelope (rows : table) (timestamp : Z) : json :=
  JObject [("data", json_of_table rows); ("timestamp", JNumber timestamp)].

(** What the network answers to [fetch(CONFIG.csvUrl)]: a rejection, or a
    response with its [ok] flag and the outcome of [response.text()]. *)
Inductive response :=
| Response (ok : bool) (text : outcome string).

(** The surroundings of one call. *)
Record world := World {
  getItem : outcome (option string);   (* localStorage.getItem(CONFIG.cacheKey) *)
  now_read : Z;                        (* Date.now() in the age computation *)
  fetched : outcome response;          (* fetch(CONFIG.csvUrl) *)
  now_fetched : Z;                     (* Date.now() after tokenizing *)
  setItem : string -> outcome unit     (* localStorage.setItem(CONFIG.cacheKey, blob) *)
}.

Inductive event :=
| Fetch (url : string)
| Stored (key blob : string)
| Warn (message : string).

(** How the returned promise settles: [resolve({ data, timestamp })] or
    [reject(e)]. *)
Inductive settlement :=
| Resolved (data timestamp : value)
| Rejected (e : error).

Record run := Run {
  settled : settlement;
  log : list event
}.

Section GetData.
(** The host's [JSON.parse] ([None]: it throws a [SyntaxError]),
    [JSON.stringify], and the numeric coercion of strings, arrays and
    objects. *)
Variable JSON_parse : string -> option json.
Variable JSON_stringify : json -> string.
Variable coerce : json -> number.

(** [ToNumber], as applied to [timestamp] by the subtraction. *)
Definition ToNumber (v : value) : number :=
  match v with
  | None => NaN
  | Some JNull => Num 0
  | Some (JBool b) => Num (if b then 1 else 0)
  | Some (JNumber n) => Num n
  | Some other => coerce other
  end.

(** [age < CONFIG.cacheDuration] for [age = now - timestamp]; a
    comparison with [NaN] is false. *)
Definition is_fresh (now : Z) (timestamp : value) : bool :=
  match ToNumber timestamp with
  | Num t => now - t <? cacheDuration
  | NaN => false
  end.

(** The [if (cached) { ... }] block: it throws, returns the cached pair
    early ([Some]), or falls through ([None]). *)
Definition read_cache (cached : option string) (now : Z)
  : outcome (option (value * value)) :=
  match cached with
  | None => Returns None
  | Some blob =>
      if truthy blob then
        match JSON_parse blob with
        | None => Throws SyntaxError
        | Some v =>
            match destructure v with
            | Throws e => Throws e
            | Returns (data, timestamp) =>
                if is_fresh now timestamp
                then Returns (Some (data, timestamp))
                else Returns None
            end
        end
      else Returns None
  end.

(** The [fetch(...).then(...).then(...).catch(reject)] chain. *)
Definition fetch_fresh (w : world) : run :=
  match fetched w with
  | Throws e => {| settled := Rejected e; log := [Fetch csvUrl] |}
  | Returns (Response ok text) =>
      if negb ok then
        {| settled := Rejected (Error "Failed to fetch data"); log := [Fetch csvUrl] |}
      else
        match text with
        | Throws e => {| settled := Rejected e; log := [Fetch csvUrl] |}
        | Returns csvText =>
            let rows := parseCSV csvText in
            let timestamp := now_fetched w in
            let blob := JSON_stringify (envelope rows timestamp) in
            {| settled := Resolved (Some (json_of_table rows)) (Some (JNumber timestamp));
               log := match setItem w blob with
                      | Returns _ => [Fetch csvUrl; Stored cacheKey blob]
                      | Throws _ =>
                          [Fetch csvUrl; Warn "NextAva Widget: Could not cache data"]
                      end |}
        end
  end.

(** The promise executor: an exception raised before the fetch rejects
    the promise. *)
Definition getData (w : world) : run :=
  match getItem w with
  | Throws e => {| settled := Rejected e; log := [] |}
  | Returns cached =>
      match read_cache cached (now_read w) with
      | Throws e => {| settled := Rejected e; log := [] |}
      | Returns (Some (data, timestamp)) =>
          {| settled := Resolved data timestamp; log := [] |}
      | Returns None => fetch_fresh w
      end
  end.

End GetData.

End Cache.

(** ** Serialized forms used to state the tokenizer's properties *)

Module Serialize.
Import JSString CSV.

Definition NL : string := String LF "".
Definition CRLF : string := String CR (String LF "").
Definition CR1 : string := String CR "".
Definition DQ : string := String DQUOTE "".

(** A cell that needs no quoting: no double quote, comma or line
    terminator in it. *)
Definition plain_char (c : ascii) : bool :=
  negb (Ascii.eqb c DQUOTE) && negb (Ascii.eqb c COMMA)
  && negb (Ascii.eqb c LF) && negb (Ascii.eqb c CR).

Fixpoint plain_cell (s : string) : bool :=
  match s with
  | EmptyString => true
  | String c rest => plain_char c && plain_cell rest
  end.

(** A cell with neither a double quote nor a comma in it. *)
Fixpoint unquoted_comma_free (s : string) : bool :=
  match s with
  | EmptyString => true
  | String c rest =>
      negb (Ascii.eqb c DQUOTE) && negb (Ascii.eqb c COMMA) && unquoted_comma_free rest
  end.

(** The cell between double quotes, each double quote in it doubled. *)
Fixpoint escape (s : string) : string :=
  match s with
  | EmptyString => EmptyString
  | String c rest =>
      if Ascii.eqb c DQUOTE then String DQUOTE (String DQUOTE (escape rest))
      else String c (escape rest)
  end.

Definition quote_field (s : string) : string := DQ +:+ escape s +:+ DQ.

(** Cells joined by commas. *)
Fixpoint join_cells (cells : list string) : string :=
  match cells with
  | [] => ""
  | [cell] => cell
  | cell :: cells' => cell +:+ String COMMA (join_cells cells')
  end.

(** Modelled from the spec: [serializeAsCsv] is named by the round-trip
    property and is not part of the widget; cells are joined by commas and
    every row is terminated by a newline. *)
Fixpoint serializeAsCsv (t : table) : string :=
  match t with
  | [] => ""
  | r :: t' => join_cells r +:+ NL +:+ serializeAsCsv t'
  end.

(** A row that the tokenizer emits: it has a cell, and is not the single
    empty cell. *)
Definition emittable (r : list string) : bool :=
  match r with
  | [] => false
  | [cell] => truthy cell
  | _ => true
  end.

(** The state with [front] put before its finished rows, and the state
    with [s] appended to its pending field. *)
Definition prepend_lines (front : table) (st : pstate) : pstate :=
  {| lines := front ++ lines st; currentLine := currentLine st;
     currentField := currentField st; inQuotes := inQuotes st |}.

Definition add_text (s : string) (st : pstate) : pstate :=
  {| lines := lines st; currentLine := currentLine st;
     currentField := currentField st +:+ s; inQuotes := inQuotes st |}.

(** The tokenizer's state after the whole of [text]. *)
Definition scan (text : string) : pstate := parse_loop text init.

Definition is_terminator (sep : string) : Prop :=
  sep = NL \/ sep = CRLF \/ sep = CR1.

(** The state right after a row [cl] has been emitted behind [front]. *)
Definition closed_row (front : table) (cl : list string) : pstate :=
  {| lines := front ++ [cl]; currentLine := []; currentField := ""; inQuotes := false |}.

(** [e] is a written form of the cell [s]: read outside quotes and
    followed by anything but a double quote, it adds exactly [s] to the
    pending field. *)
Definition encodes (e s : string) : Prop :=
  forall rest st,
    inQuotes st = false -> is_char (peek rest) DQUOTE = false ->
    parse_loop (e +:+ rest) st = parse_loop rest (add_text s st).

End Serialize.

(** ** The resolver as the specification words it *)

Module ResolverSpec.
Import JSString CSV Resolver.

(** The cell of [row] at the located column, trimmed, is exactly the key
    value. *)
Definition key_cell_equals (col : nat) (keyValue : string) (row : list string) : Prop :=
  exists cell, row !! col = Some cell /\ trim cell = keyValue.

(** Modelled from the spec: the record obtained by zipping the header
    with a row, every header name getting the row's cell at its position,
    or the empty string beyond the row's length; of two equal names the
    later one stays. *)
Fixpoint zip_header (headers : list string) (index : nat) (row : list string)
    (rec : record) : record :=
  match headers with
  | [] => rec
  | header :: headers' =>
      zip_header headers' (S index) row (<[header := cell_or_empty row index]> rec)
  end.

(** The header names other than [__proto__]. *)
Definition ordinary_names (headers : list string) : list string :=
  List.filter (fun h => negb (String.eqb h "__proto__")) headers.

Definition eq_ignore_case (a b : string) : bool :=
  String.eqb (toLowerCase a) (toLowerCase b).

(** Modelled from the spec: [resolve(table, keyColumnName, keyValue)] as
    section 4.3 words it, for comparison with [findClinic]; the widget has
    no function taking the key column name. The header is located
    case-insensitively after trimming, and the first row whose cell there,
    trimmed, equals the key value wins. *)
Definition resolve_spec (t : table) (keyColumnName keyValue : string)
  : option record :=
  match t with
  | [] => None
  | [_] => None
  | headers :: data =>
      match findIndex (fun h => eq_ignore_case (trim h) keyColumnName) headers with
      | None => None
      | Some col =>
          match
            List.find
              (fun row =>
                 match row !! col with
                 | Some cell => String.eqb (trim cell) keyValue
                 | None => false
                 end) data
          with
          | Some row => Some (zip_header headers 0 row ∅)
          | None => None
          end
      end
  end.

End ResolverSpec.

(** ** Sample hosts and surroundings for the worked examples *)

Module Samples.
Import JSString CSV Serialize RelativeTime Cache.

(** A date parser that knows one timestamp. *)
Definition sample_Date_parse (s : string) : date_outcome :=
  if String.eqb s "2024-01-01T00:00:00Z" then DateReturns (ValidDate 1704067200000)
  else DateReturns InvalidDate.

Definition sample_table : table := [["clinicid"; "US_AVA"]; ["7"; "2 days"]].

(** The text of the envelope of [sample_table] stamped 1000. *)
Definition sample_blob : string :=
  "{" +:+ DQ +:+ "data" +:+ DQ +:+ ":[[" +:+ DQ +:+ "clinicid" +:+ DQ +:+ ","
  +:+ DQ +:+ "US_AVA" +:+ DQ +:+ "],[" +:+ DQ +:+ "7" +:+ DQ +:+ "," +:+ DQ
  +:+ "2 days" +:+ DQ +:+ "]]," +:+ DQ +:+ "timestamp" +:+ DQ +:+ ":1000}".

(** A parser that knows three texts and rejects every other one. *)
Definition sample_JSON_parse (s : string) : option json :=
  if String.eqb s sample_blob then Some (envelope sample_table 1000)
  else if String.eqb s "null" then Some JNull
  else if String.eqb s "{}" then Some (JObject [])
  else None.

Definition sample_JSON_stringify (v : json) : string := sample_blob.

Definition sample_coerce (v : json) : number := NaN.

Definition sample_response : outcome response :=
  Returns (Response true (Returns ("clinicid,US_AVA" +:+ NL +:+ "7,2 days" +:+ NL))).

Definition quota_exceeded (blob : string) : outcome unit :=
  Throws (HostError "QuotaExceededError").

(** The store holds a text that is not JSON. *)
Definition world_malformed : world :=
  {| getItem := Returns (Some "{not json"); now_read := 5000;
     fetched := sample_response; now_fetched := 6000;
     setItem := fun _ => Returns tt |}.

(** The store holds an envelope stamped 1000, read at [now]. *)
Definition world_cached (now : Z) : world :=
  {| getItem := Returns (Some sample_blob); now_read := now;
     fetched := sample_response; now_fetched := now + 40;
     setItem := fun _ => Returns tt |}.

(** The store is empty and full. *)
Definition world_quota : world :=
  {| getItem := Returns None; now_read := 5000;
     fetched := sample_response; now_fetched := 6000;
     setItem := quota_exceeded |}.

End Samples.

(** ** A CSV writer with minimal quoting, and sizes *)

Module Writer.
Import JSString CSV Serialize.

(** A cell is written as it is when it needs no quoting, and between
    double quotes otherwise. *)
Definition write_cell (s : string) : string :=
  if plain_cell s then s else quote_field s.

(** Rows of written cells, every row closed by the terminator [sep]. *)
Fixpoint serialize_with (sep : string) (t : table) : string :=
  match t with
  | [] => ""
  | r :: t' => join_cells (map write_cell r) +:+ sep +:+ serialize_with sep t'
  end.

(** The number of characters held by a row, a table and a tokenizer
    state. *)
Definition row_size (r : list string) : nat :=
  fold_right (fun cell n => (String.length cell + n)%nat) 0%nat r.

Definition table_size (t : table) : nat :=
  fold_right (fun r n => (row_size r + n)%nat) 0%nat t.

Definition state_size (st : pstate) : nat :=
  (table_size (lines st) + row_size (currentLine st)
   + String.length (currentField st))%nat.

End Writer.

(** ** Presentation: the availability list and the branches of [render] *)

Module Render.
Import JSString Resolver RelativeTime.

(** [CONFIG.modalities], in key order. *)
Definition modalities : list (string * string) :=
  [("XRAY_AVA", "X-Ray");
   ("US_AVA", "Ultrasound");
   ("VUS_AVA", "Vascular Ultrasound");
   ("BMD_AVA", "Bone Density Scan");
   ("MAMMO_AVA", "Mammogram")].

(** One entry of [availabilities]. *)
Record item := Item {
  name : string;
  availability : string
}.

(** [value && value.trim()] for a property read, [None] being
    [undefined]. *)
Definition present (value : option string) : bool :=
  match value with
  | Some v => truthy v && truthy (trim v)
  | None => false
  end.

(** [Object.keys(CONFIG.modalities).forEach(key => { ... push ... })]
    over the remaining [keys], pushing onto [availabilities]. *)
Fixpoint push_availabilities (keys : list (string * string))
    (clinic : gmap string string) (availabilities : list item) : list item :=
  match keys with
  | [] => availabilities
  | (key, label) :: keys' =>
      push_availabilities keys' clinic
        match clinic !! key with
        | Some value =>
            if truthy value && truthy (trim value)
            then availabilities ++ [{| name := label; availability := trim value |}]
            else availabilities
        | None => availabilities
        end
  end.

Definition availabilities_of (clinic : gmap string string) : list item :=
  push_availabilities modalities clinic [].

(** The attributes read from the script tag. *)
Record settings := Settings {
  hideBranding : bool;
  customColor : string;
  showUpdated : bool
}.

(** What [render] writes into the container, without the fixed markup:
    one of the two messages, or the card with its items, the trimmed
    note, the relative time of the update and the branding colour. *)
Inductive view :=
| ClinicNotAvailable
| NoAvailability
| Card (items : list item) (color : string) (note : option string)
       (updated : option string) (branding : bool).

Section RenderView.
Variable Date_parse : string -> date_outcome.

(** [render(clinic, cacheTimestamp)]; [container] tells whether the
    element [nextava-widget] exists, and the result is [None] when
    nothing is written. The second argument of the source is unused. *)
Definition render (container : bool) (cfg : settings)
    (clinic : option (gmap string string)) (now_cmp now_elapsed : Z)
  : option view :=
  if negb container then None
  else
    match clinic with
    | None => Some ClinicNotAvailable
    | Some clinic =>
        let availabilities := availabilities_of clinic in
        if (length availabilities =? 0)%nat then Some NoAvailability
        else
          let note :=
            match clinic !! "NOTES_AVA" with
            | Some notes =>
                if truthy notes && truthy (trim notes) then Some (trim notes) else None
            | None => None
            end in
          let updated :=
            if showUpdated cfg then
              match timeAgo Date_parse (clinic !! "AVA_TIMESTAMP") now_cmp now_elapsed with
              | Some formattedTime =>
                  if truthy formattedTime then Some formattedTime else None
              | None => None
              end
            else None in
          Some (Card availabilities (customColor cfg) note updated
                     (negb (hideBranding cfg)))
    end.

End RenderView.

End Render.

(** ** The envelope as the specification words it, and a stored text
    that is not one *)

Module CacheSpec.
Import JSString CSV Serialize Cache.





End CacheSpec.

(** * Properties *)

Import JSString CSV Serialize Resolver ResolverSpec RelativeTime Cache Samples.
Import CacheSpec.

(** ** Strings *)

Lemma append_nil_l (t : string) : "" +:+ t = t.
Proof. reflexivity. Qed.

Lemma append_cons (c : ascii) (s t : string) :
  String c s +:+ t = String c (s +:+ t).
Proof. reflexivity. Qed.

Lemma append_nil_r (s : string) : s +:+ "" = s.
Proof.
  induction s as [|c s IH]; [reflexivity|]. now rewrite append_cons, IH.
Qed.

Lemma append_assoc (a b c : string) : (a +:+ b) +:+ c = a +:+ (b +:+ c).
Proof.
  induction a as [|x a IH]; [reflexivity|]. now rewrite !append_cons, IH.
Qed.

Lemma truthy_false (s : string) : truthy s = false <-> s = "".
Proof. destruct s; simpl; split; congruence. Qed.

Lemma truthy_true (s : string) : truthy s = true <-> s <> "".
Proof. destruct s; simpl; split; congruence. Qed.

Ltac norm_append :=
  repeat first [rewrite append_assoc | rewrite append_cons | rewrite append_nil_l].

(** Induction on a text that a loop may consume one or two characters at
    a time. *)
Lemma string_skip_ind (P : string -> Prop) :
  P "" ->
  (forall c rest,
      P rest -> (forall d rest', rest = String d rest' -> P rest') ->
      P (String c rest)) ->
  forall t, P t.
Proof.
  intros H0 Hs t.
  enough (P t /\ (forall d r, t = String d r -> P r)) by tauto.
  induction t as [|c rest [IH1 IH2]].
  - split; [exact H0 | discriminate].
  - split.
    + apply Hs; assumption.
    + intros d r E. injection E as _ <-. exact IH1.
Qed.

(** ** Tokenizer: the loop body, case by case *)

Section StepCases.
Variables (st : pstate) (nextChar : option ascii).

Lemma step_escaped_quote :
  inQuotes st = true -> is_char nextChar DQUOTE = true ->
  step DQUOTE nextChar st = (add_char DQUOTE st, true).
Proof. intros Hq Hn. unfold step. simpl. now rewrite Hq, Hn. Qed.

Lemma step_quote :
  inQuotes st && is_char nextChar DQUOTE = false ->
  step DQUOTE nextChar st = (toggle_quotes st, false).
Proof. intros H. unfold step. simpl. now rewrite H. Qed.

Lemma step_comma :
  inQuotes st = false -> step COMMA nextChar st = (push_field st, false).
Proof. intros Hq. unfold step. simpl. now rewrite Hq. Qed.

Lemma step_LF :
  inQuotes st = false -> step LF nextChar st = (end_row st, false).
Proof. intros Hq. unfold step. simpl. now rewrite Hq. Qed.

Lemma step_CR :
  inQuotes st = false ->
  step CR nextChar st = (end_row st, is_char nextChar LF).
Proof. intros Hq. unfold step. simpl. now rewrite Hq. Qed.

Lemma step_quoted_char (c : ascii) :
  inQuotes st = true -> c <> DQUOTE -> step c nextChar st = (add_char c st, false).
Proof.
  intros Hq Hc. unfold step.
  destruct (Ascii.eqb_spec c DQUOTE) as [->|_]; [contradiction|].
  rewrite Hq. simpl. now rewrite !andb_false_r.
Qed.

Lemma step_plain_char (c : ascii) :
  plain_char c = true -> step c nextChar st = (add_char c st, false).
Proof.
  unfold plain_char, step. intros H.
  apply andb_prop in H as [H H4]. apply andb_prop in H as [H H3].
  apply andb_prop in H as [H1 H2].
  apply negb_true_iff in H1, H2, H3, H4.
  now rewrite H1, H2, H3, H4.
Qed.

End StepCases.

Lemma parse_loop_cons (c : ascii) (rest : string) (st : pstate) :
  parse_loop (String c rest) st =
  parse_loop
    (if snd (step c (peek rest) st)
     then match rest with String _ rest' => rest' | EmptyString => rest end
     else rest)
    (fst (step c (peek rest) st)).
Proof. simpl. now destruct (step c (peek rest) st). Qed.

(** ** Tokenizer: rows already emitted, and terminators *)

Lemma step_prepend_lines front c nxt st :
  step c nxt (prepend_lines front st) =
  (prepend_lines front (fst (step c nxt st)), snd (step c nxt st)).
Proof.
  destruct st as [L cl cf q].
  unfold step, end_row, pending, prepend_lines; simpl.
  destruct (Ascii.eqb c DQUOTE), (Ascii.eqb c COMMA), (Ascii.eqb c LF), (Ascii.eqb c CR), q,
    (is_char nxt DQUOTE), (truthy cf), (0 <? length cl)%nat;
    simpl; try reflexivity; now rewrite ?app_assoc.
Qed.

Lemma parse_loop_prepend_lines front t :
  forall st, parse_loop t (prepend_lines front st) = prepend_lines front (parse_loop t st).
Proof.
  induction t as [|c rest IH IH'] using string_skip_ind; intros st; [reflexivity|].
  rewrite !parse_loop_cons, step_prepend_lines. cbn [fst snd].
  destruct (snd (step c (peek rest) st)); [|apply IH].
  destruct rest as [|d rest']; [apply IH|]. now apply (IH' d rest').
Qed.

Lemma end_row_prepend_lines front st :
  end_row (prepend_lines front st) = prepend_lines front (end_row st).
Proof.
  destruct st as [L cl cf q].
  unfold end_row, pending, prepend_lines; simpl.
  destruct (truthy cf || (0 <? length cl)%nat); simpl; now rewrite ?app_assoc.
Qed.

Lemma end_row_idem st : end_row (end_row st) = end_row st.
Proof.
  destruct st as [L cl cf q]. unfold end_row, pending. simpl.
  now destruct (truthy cf || (0 <? length cl)%nat) eqn:E; simpl; rewrite ?E.
Qed.

Lemma end_row_inQuotes st : inQuotes (end_row st) = inQuotes st.
Proof. unfold end_row. now destruct (pending st). Qed.

(** A terminator cannot be joined to the character before it in any way
    that changes the state: the text before it can be scanned first. *)
Lemma parse_loop_app_terminator t1 :
  forall t' st,
    (peek t' = Some LF \/ peek t' = Some CR) ->
    parse_loop (t1 +:+ t') st = parse_loop t' (parse_loop t1 st).
Proof.
  induction t1 as [|c rest IH IH'] using string_skip_ind; intros t' st Hp; [reflexivity|].
  rewrite append_cons, !parse_loop_cons.
  destruct rest as [|d rest'].
  - (* [c] is the last character before the terminator *)
    rewrite append_nil_l. simpl peek at 2 3.
    unfold step.
    destruct (Ascii.eqb_spec c DQUOTE) as [->|Hc].
    + assert (is_char (peek t') DQUOTE = false) as ->
        by (destruct Hp as [-> | ->]; reflexivity).
      simpl is_char. rewrite !andb_false_r. reflexivity.
    + destruct (Ascii.eqb c COMMA && negb (inQuotes st)); [reflexivity|].
      destruct ((Ascii.eqb c LF || Ascii.eqb c CR) && negb (inQuotes st)) eqn:E; [|reflexivity].
      simpl is_char. rewrite andb_false_r. cbn [fst snd].
      destruct (Ascii.eqb c CR && is_char (peek t') LF) eqn:E2; [|reflexivity].
      destruct t' as [|e t'']; [destruct Hp; discriminate|]. simpl in E2.
      apply andb_prop in E2 as [_ E2]. apply Ascii.eqb_eq in E2 as ->.
      apply andb_prop in E as [_ E]. apply negb_true_iff in E.
      change (parse_loop "" (end_row st)) with (end_row st).
      rewrite parse_loop_cons, step_LF by now rewrite end_row_inQuotes.
      simpl. now rewrite end_row_idem.
  - rewrite append_cons. simpl peek.
    destruct (snd (step c (Some d) st)).
    + now apply (IH' d rest').
    + rewrite <- append_cons. now apply IH.
Qed.

Lemma end_row_closed st :
  inQuotes st = false -> end_row st = prepend_lines (lines (end_row st)) init.
Proof.
  destruct st as [L cl cf q]. simpl. intros ->.
  unfold end_row, pending, prepend_lines. simpl.
  destruct (truthy cf || (0 <? length cl)%nat) eqn:E; simpl; rewrite app_nil_r.
  - reflexivity.
  - apply orb_false_elim in E as [E1 E2]. apply truthy_false in E1 as ->.
    destruct cl; [reflexivity | discriminate].
Qed.

Lemma parse_loop_terminator sep t2 st :
  is_terminator sep -> inQuotes st = false ->
  parse_loop (sep +:+ t2) st = parse_loop t2 (end_row st).
Proof.
  intros [-> | [-> | ->]] Hq.
  - unfold NL. rewrite append_cons, append_nil_l, parse_loop_cons, step_LF by assumption.
    reflexivity.
  - unfold CRLF. rewrite !append_cons, append_nil_l, parse_loop_cons, step_CR by assumption.
    reflexivity.
  - unfold CR1. rewrite append_cons, append_nil_l, parse_loop_cons, step_CR by assumption.
    cbn [fst snd].
    destruct t2 as [|d t2']; [reflexivity|]. simpl peek. simpl is_char.
    destruct (Ascii.eqb_spec d LF) as [->|Hd]; [|reflexivity].
    rewrite (parse_loop_cons LF), step_LF by now rewrite end_row_inQuotes.
    simpl. now rewrite end_row_idem.
Qed.

Lemma peek_terminator sep t2 :
  is_terminator sep -> peek (sep +:+ t2) = Some LF \/ peek (sep +:+ t2) = Some CR.
Proof. intros [-> | [-> | ->]]; [left | right | right]; reflexivity. Qed.

Lemma parseCSV_boundary t1 sep t2 :
  is_terminator sep -> inQuotes (scan t1) = false ->
  parseCSV (t1 +:+ sep +:+ t2) = parseCSV t1 ++ parseCSV t2.
Proof.
  intros Hsep Hq. unfold parseCSV.
  rewrite parse_loop_app_terminator by now apply peek_terminator.
  rewrite parse_loop_terminator by assumption.
  pose proof (end_row_closed _ Hq) as E. unfold scan in E.
  set (front := lines (end_row (parse_loop t1 init))) in *.
  now rewrite E, parse_loop_prepend_lines, end_row_prepend_lines.
Qed.

(** Emitted rows *)
Lemma emittable_pending st :
  pending st = true -> emittable (currentLine st ++ [currentField st]) = true.
Proof.
  destruct st as [L cl cf q]. unfold pending. simpl.
  destruct cl as [|a [|b cl]]; simpl; [|reflexivity..].
  now rewrite orb_false_r.
Qed.

Lemma end_row_emittable st :
  Forall (fun r => emittable r = true) (lines st) ->
  Forall (fun r => emittable r = true) (lines (end_row st)).
Proof.
  intros H. unfold end_row. destruct (pending st) eqn:E; [|assumption].
  simpl. apply Forall_app. split; [assumption|].
  constructor; [now apply emittable_pending | constructor].
Qed.

Lemma step_lines c nxt st :
  lines (fst (step c nxt st)) = lines st \/
  fst (step c nxt st) = end_row st.
Proof.
  unfold step.
  destruct (Ascii.eqb c DQUOTE); [destruct (inQuotes st && is_char nxt DQUOTE); now left|].
  destruct (Ascii.eqb c COMMA && negb (inQuotes st)); [now left|].
  destruct ((Ascii.eqb c LF || Ascii.eqb c CR) && negb (inQuotes st)); [now right | now left].
Qed.

Lemma parse_loop_emittable t :
  forall st,
    Forall (fun r => emittable r = true) (lines st) ->
    Forall (fun r => emittable r = true) (lines (parse_loop t st)).
Proof.
  induction t as [|c rest IH IH'] using string_skip_ind; intros st H; [assumption|].
  rewrite parse_loop_cons.
  assert (Forall (fun r => emittable r = true) (lines (fst (step c (peek rest) st)))) as H'.
  { destruct (step_lines c (peek rest) st) as [-> | ->];
      [assumption | now apply end_row_emittable]. }
  destruct (snd (step c (peek rest) st)); [|now apply IH].
  destruct rest as [|d rest']; [now apply IH | now apply (IH' d rest')].
Qed.

Lemma parseCSV_emittable t : Forall (fun r => emittable r = true) (parseCSV t).
Proof. apply end_row_emittable, parse_loop_emittable. constructor. Qed.

Lemma add_text_nil st : add_text "" st = st.
Proof. destruct st. unfold add_text. simpl. now rewrite append_nil_r. Qed.

Lemma add_text_cons c s st : add_text (String c s) st = add_text s (add_char c st).
Proof.
  destruct st. unfold add_text, add_char. simpl.
  now rewrite append_assoc.
Qed.

Lemma encodes_plain s : plain_cell s = true -> encodes s s.
Proof.
  intros Hs rest. induction s as [|c s IH]; intros st Hq Hr.
  - now rewrite add_text_nil.
  - simpl in Hs. apply andb_prop in Hs as [Hc Hs].
    rewrite append_cons, parse_loop_cons, step_plain_char by assumption.
    cbn [fst snd]. rewrite add_text_cons. now apply IH.
Qed.

(** Inside the quotes every character of [escape s] is data. *)
Lemma parse_escaped s :
  forall rest st,
    inQuotes st = true -> is_char (peek rest) DQUOTE = false ->
    parse_loop (escape s +:+ String DQUOTE rest) st =
    parse_loop rest (toggle_quotes (add_text s st)).
Proof.
  induction s as [|c s IH]; intros rest st Hq Hr.
  - simpl escape. rewrite append_nil_l, parse_loop_cons, step_quote, add_text_nil
      by (rewrite Hr; apply andb_false_r).
    reflexivity.
  - simpl escape. rewrite add_text_cons. destruct (Ascii.eqb_spec c DQUOTE) as [->|Hc].
    + rewrite !append_cons, parse_loop_cons.
      rewrite step_escaped_quote by (assumption || reflexivity).
      now apply IH.
    + rewrite append_cons, parse_loop_cons, step_quoted_char by assumption.
      now apply IH.
Qed.

Lemma encodes_quoted s : encodes (quote_field s) s.
Proof.
  intros rest st Hq Hr. unfold quote_field, DQ.
  norm_append. rewrite parse_loop_cons, step_quote by now rewrite Hq.
  cbn [fst snd].
  rewrite parse_escaped by (assumption || (simpl; now rewrite Hq)).
  f_equal. destruct st. unfold toggle_quotes, add_text. simpl in *. now subst.
Qed.

Lemma emittable_app cl cells :
  (1 < length (cl ++ cells))%nat -> emittable (cl ++ cells) = true.
Proof. destruct (cl ++ cells) as [|a [|b l]]; simpl; [lia | lia | reflexivity]. Qed.

Lemma parse_row es cells :
  Forall2 encodes es cells ->
  forall rest st,
    inQuotes st = false -> currentField st = "" ->
    emittable (currentLine st ++ cells) = true -> cells <> [] ->
    parse_loop (join_cells es +:+ NL +:+ rest) st =
    parse_loop rest (closed_row (lines st) (currentLine st ++ cells)).
Proof.
  induction 1 as [|e s es cells He Hes IH]; intros rest st Hq Hf Hem Hne; [contradiction|].
  destruct Hes as [|e2 s2 es cells He2 Hes].
  - simpl join_cells. rewrite He by (assumption || reflexivity).
    unfold NL. rewrite append_cons, append_nil_l, parse_loop_cons, step_LF by assumption.
    cbn [fst snd]. f_equal.
    destruct st as [L cl cf q]. simpl in *. subst.
    unfold end_row, pending, add_text, closed_row. simpl.
    change ("" +:+ s) with s.
    destruct cl as [|a cl]; simpl in *; [now rewrite Hem|].
    now rewrite orb_true_r.
  - change (join_cells (e :: e2 :: es))
      with (e +:+ String COMMA (join_cells (e2 :: es))).
    rewrite append_assoc, append_cons.
    rewrite He by (assumption || reflexivity).
    rewrite parse_loop_cons, step_comma by assumption.
    cbn [fst snd].
    rewrite IH.
    + f_equal. destruct st as [L cl cf q]. simpl in *. subst.
      unfold closed_row. simpl. now rewrite <- app_assoc.
    + assumption.
    + reflexivity.
    + apply emittable_app. simpl. rewrite !length_app. simpl. lia.
    + discriminate.
Qed.

Lemma emittable_nonempty r : emittable r = true -> r <> [].
Proof. destruct r; [discriminate | discriminate]. Qed.

Lemma closed_row_prepend front cl :
  closed_row front cl = prepend_lines (front ++ [cl]) init.
Proof. unfold closed_row, prepend_lines. simpl. now rewrite app_nil_r. Qed.

Lemma parse_table ets t :
  Forall2 (Forall2 encodes) ets t ->
  Forall (fun r => emittable r = true) t ->
  forall front,
    parse_loop (serializeAsCsv ets) (prepend_lines front init) =
    prepend_lines (front ++ t) init.
Proof.
  induction 1 as [|es r ets t Hr Ht IH]; intros Hem front.
  - simpl. now rewrite app_nil_r.
  - apply Forall_cons_1 in Hem as [Hr' Hem].
    simpl serializeAsCsv.
    rewrite (parse_row es r Hr) by (try reflexivity; try assumption; now apply emittable_nonempty).
    rewrite closed_row_prepend, IH by assumption.
    simpl. now rewrite app_nil_r, <- app_assoc.
Qed.

Lemma parseCSV_encoded ets t :
  Forall2 (Forall2 encodes) ets t ->
  Forall (fun r => emittable r = true) t ->
  parseCSV (serializeAsCsv ets) = t.
Proof.
  intros H1 H2. unfold parseCSV.
  change init with (prepend_lines [] init).
  rewrite (parse_table ets t H1 H2). simpl. now rewrite app_nil_r.
Qed.

(** ** Tokenizer: the claims *)

(** C5. Row boundaries. (1) A terminator [\n], [\r\n] or bare [\r] met
    outside quotes is a row boundary: the rows of the text are the rows of
    what precedes it followed by the rows of what follows it, so [\r\n]
    is one boundary and leaves no empty field or row behind. (2) Met
    inside an open quote, [\n] or [\r] is appended to the pending field
    and closes nothing. (3) At end of input the pending row is emitted
    exactly when it has a pushed field or a non-empty pending field, and
    (4) no emitted row is empty or a single empty cell. (5) A trailing
    terminator adds no row, (6) the empty input has zero rows, and (7)
    the specification's CRLF and trailing-newline examples hold. *)
Theorem parseCSV_row_boundaries :
  (forall t1 sep t2,
      is_terminator sep -> inQuotes (scan t1) = false ->
      parseCSV (t1 +:+ sep +:+ t2) = parseCSV t1 ++ parseCSV t2) /\
  (forall t1 c t2,
      c = LF \/ c = CR -> inQuotes (scan t1) = true ->
      scan (t1 +:+ String c t2) = parse_loop t2 (add_char c (scan t1))) /\
  (forall t,
      parseCSV t =
      if truthy (currentField (scan t)) || (0 <? length (currentLine (scan t)))%nat
      then lines (scan t) ++ [currentLine (scan t) ++ [currentField (scan t)]]
      else lines (scan t)) /\
  (forall t, Forall (fun r => emittable r = true) (parseCSV t)) /\
  (forall t1 sep,
      is_terminator sep -> inQuotes (scan t1) = false ->
      parseCSV (t1 +:+ sep) = parseCSV t1) /\
  parseCSV "" = [] /\
  parseCSV ("a,b" +:+ CRLF +:+ "c,d" +:+ CRLF) = [["a"; "b"]; ["c"; "d"]] /\
  parseCSV ("a,b" +:+ NL) = [["a"; "b"]] /\
  parseCSV ("a,b" +:+ CR1 +:+ "c,d") = [["a"; "b"]; ["c"; "d"]].
Proof.
  repeat split.
  - intros t1 sep t2. apply parseCSV_boundary.
  - intros t1 c t2 Hc Hq. unfold scan in *.
    rewrite parse_loop_app_terminator by (simpl; destruct Hc as [-> | ->]; tauto).
    rewrite parse_loop_cons, step_quoted_char;
      [reflexivity | assumption | destruct Hc as [-> | ->]; discriminate].
  - intros t. unfold parseCSV, scan, end_row, pending.
    now destruct (truthy _ || _).
  - apply parseCSV_emittable.
  - intros t1 sep Hsep Hq.
    rewrite <- (append_nil_r sep), parseCSV_boundary by assumption.
    apply app_nil_r.
Qed.

Lemma parseCSV_row_boundaries_witness :
  parseCSV (("a,b" +:+ CR1) +:+ NL +:+ "c") = parseCSV ("a,b" +:+ CR1) ++ parseCSV "c" /\
  parseCSV ("a,b" +:+ CR1) ++ parseCSV "c" = [["a"; "b"]; ["c"]] /\
  scan ((DQ +:+ "a") +:+ String LF ("b" +:+ DQ)) =
    parse_loop ("b" +:+ DQ) (add_char LF (scan (DQ +:+ "a"))) /\
  parseCSV ((DQ +:+ "a") +:+ String LF ("b" +:+ DQ)) = [["a" +:+ NL +:+ "b"]].
Proof.
  split; [|split; [|split]].
  - apply (proj1 parseCSV_row_boundaries); [left; reflexivity | reflexivity].
  - reflexivity.
  - apply (proj1 (proj2 parseCSV_row_boundaries)); [left; reflexivity | reflexivity].
  - reflexivity.
Defined.

(** C6. Quoted fields. Every cell, whatever commas, double quotes or line
    terminators it contains, is read back unchanged from its quoted form
    (the cell between double quotes with each of its double quotes
    doubled): a comma inside quotes is data and a doubled quote yields
    one quote character. The two examples of the specification follow. *)
Theorem parseCSV_quoted_fields :
  (forall t : table,
      Forall (fun r => emittable r = true) t ->
      parseCSV (serializeAsCsv (map (map quote_field) t)) = t) /\
  parseCSV ("a," +:+ DQ +:+ "b,c" +:+ DQ +:+ ",d" +:+ NL) = [["a"; "b,c"; "d"]] /\
  parseCSV (DQ +:+ "He said " +:+ DQ +:+ DQ +:+ "hi" +:+ DQ +:+ DQ +:+ DQ +:+ ",2" +:+ NL)
  = [["He said " +:+ DQ +:+ "hi" +:+ DQ; "2"]].
Proof.
  split; [|split; reflexivity].
  intros t Hem. apply parseCSV_encoded; [|assumption].
  clear Hem. induction t as [|r t IH]; constructor; [|assumption].
  induction r as [|s r IHr]; constructor; [apply encodes_quoted | assumption].
Qed.

Lemma parseCSV_quoted_fields_witness :
  parseCSV (serializeAsCsv (map (map quote_field)
    [["x,y"; DQ +:+ "z" +:+ DQ]; ["line" +:+ NL +:+ "break"; ""]]))
  = [["x,y"; DQ +:+ "z" +:+ DQ]; ["line" +:+ NL +:+ "break"; ""]].
Proof.
  apply (proj1 parseCSV_quoted_fields).
  repeat constructor.
Defined.

(** C8, as written, fails: the table whose only row is one empty cell is
    made of unquoted comma-free cells, yet it serializes to a blank line,
    which the tokenizer skips; and a cell holding a line terminator is
    split in two rows. *)
Lemma roundtrip_as_written_fails :
  Forall (Forall (fun c => unquoted_comma_free c = true)) [[""]] /\
  serializeAsCsv [[""]] = NL /\
  parseCSV (serializeAsCsv [[""]]) = [] /\
  Forall (Forall (fun c => unquoted_comma_free c = true)) [["a" +:+ NL +:+ "b"]] /\
  parseCSV (serializeAsCsv [["a" +:+ NL +:+ "b"]]) = [["a"]; ["b"]].
Proof. repeat split; repeat constructor. Qed.

(** C8, amended. For every table whose cells hold no double quote, comma
    or line terminator, and none of whose rows is empty or a single empty
    cell, tokenizing the serialization gives the table back. *)
Theorem parseCSV_roundtrip (t : table) :
  Forall (Forall (fun c => plain_cell c = true)) t ->
  Forall (fun r => emittable r = true) t ->
  parseCSV (serializeAsCsv t) = t.
Proof.
  intros Hp Hem. apply parseCSV_encoded; [|assumption].
  clear Hem. induction Hp as [|r t Hr _ IH]; constructor; [|assumption].
  induction Hr as [|s r Hs _ IHr]; constructor; [now apply encodes_plain | assumption].
Qed.

Lemma parseCSV_roundtrip_witness :
  parseCSV (serializeAsCsv [["clinicid"; "XRAY_AVA"]; ["42"; ""]; ["7"; "2 days"]])
  = [["clinicid"; "XRAY_AVA"]; ["42"; ""]; ["7"; "2 days"]].
Proof. apply parseCSV_roundtrip; repeat constructor. Defined.

(** ** Resolver: searching the header and the rows *)

Section FindIndex.
Context {A : Type} (p : A -> bool).

Lemma findIndex_None (l : list A) :
  Forall (fun x => p x = false) l -> findIndex p l = None.
Proof.
  induction 1 as [|x l Hx _ IH]; simpl; [reflexivity|]. now rewrite Hx, IH.
Qed.

Lemma findIndex_first (l : list A) :
  forall i x,
    l !! i = Some x -> p x = true ->
    (forall j y, (j < i)%nat -> l !! j = Some y -> p y = false) ->
    findIndex p l = Some i.
Proof.
  induction l as [|a l IH]; intros i x Hi Hx Hlt; [discriminate|].
  destruct i as [|i]; simpl in *.
  - injection Hi as ->. now rewrite Hx.
  - rewrite (Hlt 0%nat a) by (lia || reflexivity).
    rewrite (IH i x Hi Hx); [reflexivity|].
    intros j y Hj Hy. apply (Hlt (S j) y); [lia | exact Hy].
Qed.

Lemma findIndex_Some (l : list A) :
  forall i,
    findIndex p l = Some i ->
    (exists x, l !! i = Some x /\ p x = true) /\
    (forall j y, (j < i)%nat -> l !! j = Some y -> p y = false).
Proof.
  induction l as [|a l IH]; intros i H; [discriminate|].
  simpl in H. destruct (p a) eqn:Ea.
  - injection H as <-. split; [exists a; split; [reflexivity | assumption]|].
    intros j y Hj. lia.
  - destruct (findIndex p l) as [k|]; [|discriminate].
    injection H as <-. destruct (IH k eq_refl) as [[x [Hx Hp]] Hlt].
    split; [exists x; now split|].
    intros [|j] y Hj Hy; simpl in Hy.
    + now injection Hy as <-.
    + apply (Hlt j y); [lia | exact Hy].
Qed.

End FindIndex.

Lemma is_clinicid_header_spec (h : string) :
  is_clinicid_header h = true <-> toLowerCase (trim h) = "clinicid".
Proof.
  unfold is_clinicid_header. rewrite andb_true_iff, String.eqb_eq.
  split; [tauto|]. intros H. split; [|assumption].
  destruct h; [discriminate | reflexivity].
Qed.

Lemma is_clinicid_header_false (h : string) :
  is_clinicid_header h = false <-> toLowerCase (trim h) <> "clinicid".
Proof.
  rewrite <- is_clinicid_header_spec. now destruct (is_clinicid_header h).
Qed.

Lemma row_matches_spec (col : nat) (clinicId : string) (row : list string) :
  row_matches col clinicId row = true <->
  exists cell, row !! col = Some cell /\ cell <> "" /\ trim cell = clinicId.
Proof.
  unfold row_matches. destruct (row !! col) as [cell|].
  - rewrite andb_true_iff, String.eqb_eq, truthy_true. split.
    + intros [H1 H2]. now exists cell.
    + intros (c & [= <-] & H1 & H2). now split.
  - split; [discriminate | now intros (c & H & _)].
Qed.

Lemma row_matches_false (col : nat) (clinicId : string) (row : list string) :
  row_matches col clinicId row = false <->
  ~ exists cell, row !! col = Some cell /\ cell <> "" /\ trim cell = clinicId.
Proof.
  rewrite <- row_matches_spec. now destruct (row_matches col clinicId row).
Qed.

Lemma scan_rows_first headers col clinicId (data : list (list string)) :
  forall i row,
    data !! i = Some row -> row_matches col clinicId row = true ->
    (forall j r, (j < i)%nat -> data !! j = Some r -> row_matches col clinicId r = false) ->
    scan_rows headers col clinicId data = Some (fill headers 0 row ∅).
Proof.
  induction data as [|a data IH]; intros i row Hi Hm Hlt; [discriminate|].
  destruct i as [|i]; simpl in *.
  - injection Hi as ->. now rewrite Hm.
  - rewrite (Hlt 0%nat a) by (lia || reflexivity).
    apply (IH i row Hi Hm). intros j r Hj Hr. apply (Hlt (S j) r); [lia | exact Hr].
Qed.

Lemma scan_rows_None headers col clinicId (data : list (list string)) :
  Forall (fun r => row_matches col clinicId r = false) data ->
  scan_rows headers col clinicId data = None.
Proof. induction 1 as [|r data Hr _ IH]; simpl; [reflexivity|]. now rewrite Hr. Qed.

Lemma scan_rows_Some headers col clinicId (data : list (list string)) rec :
  scan_rows headers col clinicId data = Some rec ->
  exists i row,
    data !! i = Some row /\ row_matches col clinicId row = true /\
    (forall j r, (j < i)%nat -> data !! j = Some r -> row_matches col clinicId r = false) /\
    rec = fill headers 0 row ∅.
Proof.
  induction data as [|a data IH]; simpl; [discriminate|].
  destruct (row_matches col clinicId a) eqn:Ea.
  - intros [= <-]. exists 0%nat, a. repeat split; try assumption. intros j r Hj. lia.
  - intros H. destruct (IH H) as (i & row & Hi & Hm & Hlt & ->).
    exists (S i), row. repeat split; try assumption.
    intros [|j] r Hj Hr; simpl in Hr.
    + now injection Hr as <-.
    + apply (Hlt j r); [lia | exact Hr].
Qed.

(** ** Resolver: the record built from the header *)

Lemma set_property_lookup_ne (header value name : string) (m : gmap string string) :
  name <> header -> set_property header value m !! name = m !! name.
Proof.
  intros Hne. unfold set_property.
  destruct (String.eqb header "__proto__"); [reflexivity|].
  apply lookup_insert_ne. congruence.
Qed.

Lemma set_property_lookup_eq (header value : string) (m : gmap string string) :
  header <> "__proto__" -> set_property header value m !! header = Some value.
Proof.
  intros Hne. unfold set_property.
  destruct (String.eqb_spec header "__proto__"); [contradiction|].
  apply lookup_insert_eq.
Qed.

Lemma set_property_proto (value : string) (m : gmap string string) :
  set_property "__proto__" value m = m.
Proof. reflexivity. Qed.

Lemma fill_lookup_other headers :
  forall index row (m : gmap string string) name,
    name ∉ headers -> fill headers index row m !! name = m !! name.
Proof.
  induction headers as [|h headers IH]; intros index row m name Hn; [reflexivity|].
  simpl. apply not_elem_of_cons in Hn as [Hne Hn].
  rewrite IH by assumption. now apply set_property_lookup_ne.
Qed.

Lemma fill_lookup_last headers :
  forall index row (m : gmap string string) name j,
    name <> "__proto__" ->
    headers !! j = Some name ->
    (forall k, (j < k)%nat -> headers !! k <> Some name) ->
    fill headers index row m !! name = Some (cell_or_empty row (index + j)).
Proof.
  induction headers as [|h headers IH]; intros index row m name j Hp Hj Hlast; [discriminate|].
  destruct j as [|j]; simpl in *.
  - injection Hj as ->. rewrite fill_lookup_other.
    + rewrite set_property_lookup_eq by assumption. now rewrite Nat.add_0_r.
    + intros Hin. apply list_elem_of_lookup in Hin as [k Hk].
      now apply (Hlast (S k)); [lia|].
  - rewrite (IH (S index) row _ name j Hp Hj).
    + f_equal. f_equal. lia.
    + intros k Hk. apply (Hlast (S k)). lia.
Qed.

Lemma fill_lookup_proto headers :
  forall index row (m : gmap string string),
    fill headers index row m !! "__proto__" = m !! "__proto__".
Proof.
  induction headers as [|h headers IH]; intros index row m; [reflexivity|].
  simpl. rewrite IH. unfold set_property.
  destruct (String.eqb_spec h "__proto__") as [->|Hne]; [reflexivity|].
  apply lookup_insert_ne. assumption.
Qed.

Lemma fill_is_Some headers :
  forall index row (m : gmap string string) name,
    name <> "__proto__" ->
    (is_Some (fill headers index row m !! name) <->
     name ∈ headers \/ is_Some (m !! name)).
Proof.
  induction headers as [|h headers IH]; intros index row m name Hp; simpl.
  - rewrite elem_of_nil. tauto.
  - rewrite IH by assumption. rewrite elem_of_cons.
    destruct (String.eqb_spec name h) as [<-|Hne].
    + rewrite set_property_lookup_eq by assumption.
      split; [intros _; now left; left | intros _; right; eauto].
    + rewrite set_property_lookup_ne by assumption. tauto.
Qed.

Lemma elem_of_ordinary_names (name : string) (headers : list string) :
  name ∈ ordinary_names headers <-> name ∈ headers /\ name <> "__proto__".
Proof.
  unfold ordinary_names. rewrite !list_elem_of_In, filter_In, negb_true_iff.
  now rewrite String.eqb_neq.
Qed.

Lemma fill_dom headers index row :
  dom (fill headers index row ∅) = list_to_set (ordinary_names headers).
Proof.
  apply set_eq. intros name.
  rewrite elem_of_dom, elem_of_list_to_set, elem_of_ordinary_names.
  destruct (String.eqb_spec name "__proto__") as [->|Hne].
  - rewrite fill_lookup_proto, lookup_empty. split; [now intros [x Hx] | tauto].
  - rewrite fill_is_Some by assumption. rewrite lookup_empty.
    split; [intros [H | [x Hx]]; [tauto | discriminate] | tauto].
Qed.

Lemma size_list_to_set_remove_dups (l : list string) :
  size (list_to_set l : gset string) = length (remove_dups l).
Proof.
  rewrite <- (size_list_to_set (C := gset string) (remove_dups l)) by apply NoDup_remove_dups.
  f_equal. apply set_eq. intros x.
  now rewrite !elem_of_list_to_set, elem_of_remove_dups.
Qed.

Lemma fill_size headers index row :
  size (fill headers index row ∅) = length (remove_dups (ordinary_names headers)).
Proof.
  rewrite <- size_dom, fill_dom. apply size_list_to_set_remove_dups.
Qed.

Lemma fill_delete_proto headers index row :
  delete "__proto__" (fill headers index row ∅) = fill headers index row ∅.
Proof. apply delete_id. now rewrite fill_lookup_proto. Qed.

(** Without a header named [__proto__] the record is the zip. *)
Lemma fill_zip_header headers :
  forall index row (m : gmap string string),
    "__proto__" ∉ headers -> fill headers index row m = zip_header headers index row m.
Proof.
  induction headers as [|h headers IH]; intros index row m Hn; [reflexivity|].
  apply not_elem_of_cons in Hn as [Hne Hn]. simpl. rewrite IH by assumption.
  unfold set_property. destruct (String.eqb_spec h "__proto__"); [congruence | reflexivity].
Qed.

Lemma findClinic_unfold headers data clinicId :
  data <> [] ->
  findClinic (headers :: data) clinicId =
  match findIndex is_clinicid_header headers with
  | None => None
  | Some col => scan_rows headers col clinicId data
  end.
Proof. destruct data; [contradiction | reflexivity]. Qed.

Lemma findClinic_header_only headers clinicId : findClinic [headers] clinicId = None.
Proof. reflexivity. Qed.

(** With a key value that is not empty, the test of the loop is the
    comparison of the trimmed cell with the key value. *)
Lemma row_matches_nonempty_key (col : nat) (clinicId : string) (row : list string) :
  clinicId <> "" ->
  (row_matches col clinicId row = true <-> key_cell_equals col clinicId row).
Proof.
  intros Hk. rewrite row_matches_spec. unfold key_cell_equals. split.
  - intros (cell & Hc & _ & Ht). now exists cell.
  - intros (cell & Hc & Ht). exists cell. split; [assumption|]. split; [|assumption].
    intros ->. apply Hk. now rewrite <- Ht.
Qed.

(** ** Resolver: the claims *)

(** C4, as written, fails on the zip: for a header row that holds the
    name [__proto__], the specification's [resolve] returns the matched
    row zipped with the whole header, whereas the record that [findClinic]
    returns has no entry of that name. *)
Lemma resolve_zip_as_written_fails :
  resolve_spec [["clinicid"; "__proto__"]; ["7"; "x"]] "clinicid" "7"
  = Some {[ "clinicid" := "7"; "__proto__" := "x" ]} /\
  findClinic [["clinicid"; "__proto__"]; ["7"; "x"]] "7"
  = Some {[ "clinicid" := "7" ]}.
Proof. split; vm_compute; reflexivity. Qed.

(** C4, amended. For a key value that is not empty (the widget stops at
    start-up without one) and the key column [clinicid]: [findClinic]
    returns nothing when the table has fewer than two rows, or when no
    header cell, trimmed and lower-cased, is [clinicid]; otherwise, with
    [col] the first such header index, it returns nothing when no data row
    has at [col] a cell whose trimmed value is exactly the key value, and
    else a record of the first such row in row order, zipped with the
    header for every header name other than [__proto__]: such a name is a
    key exactly when it is in the header, and it holds the row's cell (or
    the empty string) at the name's last position. *)
Theorem findClinic_first_match (rows : table) (clinicId : string) :
  clinicId <> "" ->
  ((length rows < 2)%nat -> findClinic rows clinicId = None) /\
  (forall headers data,
      rows = headers :: data ->
      (Forall (fun h => toLowerCase (trim h) <> "clinicid") headers ->
       findClinic rows clinicId = None) /\
      (forall col h,
          headers !! col = Some h -> toLowerCase (trim h) = "clinicid" ->
          (forall j h', (j < col)%nat -> headers !! j = Some h' ->
                        toLowerCase (trim h') <> "clinicid") ->
          (Forall (fun row => ~ key_cell_equals col clinicId row) data ->
           findClinic rows clinicId = None) /\
          (forall i row,
              data !! i = Some row -> key_cell_equals col clinicId row ->
              (forall j r, (j < i)%nat -> data !! j = Some r ->
                           ~ key_cell_equals col clinicId r) ->
              exists rec : gmap string string,
                findClinic rows clinicId = Some rec /\
                (forall name,
                    name <> "__proto__" ->
                    (is_Some (rec !! name) <-> name ∈ headers)) /\
                (forall k name,
                    name <> "__proto__" ->
                    headers !! k = Some name ->
                    (forall k', (k < k')%nat -> headers !! k' <> Some name) ->
                    rec !! name = Some (cell_or_empty row k))))).
Proof.
  intros Hkey. split.
  - intros Hlen. unfold findClinic.
    apply Nat.ltb_lt in Hlen. now rewrite Hlen.
  - intros headers data ->. split.
    + intros Hno. destruct data as [|r data]; [reflexivity|].
      rewrite findClinic_unfold by discriminate.
      rewrite findIndex_None; [reflexivity|].
      eapply Forall_impl; [exact Hno|]. intros h. apply is_clinicid_header_false.
    + intros col h Hcol Hh Hfirst.
      assert (findIndex is_clinicid_header headers = Some col) as Hidx.
      { apply (findIndex_first _ _ col h Hcol); [now apply is_clinicid_header_spec|].
        intros j h' Hj Hh'. apply is_clinicid_header_false. now apply (Hfirst j). }
      assert (forall r, ~ key_cell_equals col clinicId r ->
                        row_matches col clinicId r = false) as Hneg.
      { intros r Hr. destruct (row_matches col clinicId r) eqn:E; [|reflexivity].
        exfalso. apply Hr. now apply row_matches_nonempty_key. }
      split.
      * intros Hnone. destruct data as [|r data]; [reflexivity|].
        rewrite findClinic_unfold, Hidx by discriminate.
        apply scan_rows_None. eapply Forall_impl; [exact Hnone|]. exact Hneg.
      * intros i row Hi Hm Hlt. exists (fill headers 0 row ∅). split; [|split].
        -- rewrite findClinic_unfold, Hidx by (now destruct data).
           apply (scan_rows_first _ _ _ _ i row Hi);
             [now apply row_matches_nonempty_key|].
           intros j r Hj Hr. apply Hneg. now apply (Hlt j).
        -- intros name Hp. rewrite fill_is_Some by assumption.
           rewrite lookup_empty. split; [intros [H | [x Hx]]; [assumption | discriminate] | tauto].
        -- intros k name Hp Hk Hlast.
           now rewrite (fill_lookup_last _ _ _ _ _ k Hp Hk Hlast).
Qed.

Lemma findClinic_first_match_witness :
  exists rec : gmap string string,
    findClinic [["Name"; " ClinicID "]; ["a"; "7"]; ["b"; " 42 "]; ["c"; "42"]] "42"
    = Some rec /\
    rec !! "Name" = Some "b".
Proof.
  destruct (findClinic_first_match
              [["Name"; " ClinicID "]; ["a"; "7"]; ["b"; " 42 "]; ["c"; "42"]] "42")
    as [_ H]; [discriminate|].
  destruct (H ["Name"; " ClinicID "] [["a"; "7"]; ["b"; " 42 "]; ["c"; "42"]] eq_refl)
    as [_ H'].
  destruct (H' 1%nat " ClinicID " eq_refl eq_refl) as [_ H''].
  - intros [|[|j]] h' Hj Hh'; [|lia|lia]. injection Hh' as <-. discriminate.
  - destruct (H'' 1%nat ["b"; " 42 "] eq_refl) as (rec & Hrec & _ & Hlook).
    + exists " 42 ". split; reflexivity.
    + intros [|[|j]] r Hj Hr; [|lia|lia]. injection Hr as <-.
      intros (cell & [= <-] & Hc). discriminate.
    + exists rec. split; [exact Hrec|].
      apply (Hlook 0%nat "Name"); [discriminate | reflexivity |].
      intros [|[|[|k']]] Hk'; try lia; discriminate.
Defined.

(** C9. A data row whose cell at the key column is absent or the empty
    string never matches, whatever the key value: when all data rows are
    such, nothing is found, and any record returned comes from a row whose
    key cell is non-empty. In particular the empty key value does not find
    a row whose key cell is empty, but it does find the first row whose
    key cell is non-empty white space. *)
Theorem findClinic_skips_empty_key_cells :
  (forall col clinicId row,
      row !! col = None \/ row !! col = Some "" ->
      row_matches col clinicId row = false) /\
  (forall headers data col clinicId,
      findIndex is_clinicid_header headers = Some col ->
      Forall (fun row => row !! col = None \/ row !! col = Some "") data ->
      findClinic (headers :: data) clinicId = None) /\
  (forall rows clinicId rec,
      findClinic rows clinicId = Some rec ->
      exists headers data col i row cell,
        rows = headers :: data /\
        findIndex is_clinicid_header headers = Some col /\
        data !! i = Some row /\ row !! col = Some cell /\
        cell <> "" /\ trim cell = clinicId /\ rec = fill headers 0 row ∅) /\
  (forall headers data col i row cell,
      findIndex is_clinicid_header headers = Some col ->
      data !! i = Some row -> row !! col = Some cell ->
      cell <> "" -> trim cell = "" ->
      (forall j r, (j < i)%nat -> data !! j = Some r -> row_matches col "" r = false) ->
      findClinic (headers :: data) "" = Some (fill headers 0 row ∅)) /\
  findClinic [["clinicid"]; [""]] "" = None /\
  findClinic [["clinicid"]; [" "]] "" = Some {[ "clinicid" := " " ]}.
Proof.
  split; [|split; [|split; [|split; [|split]]]].
  - intros col clinicId row [H | H]; unfold row_matches; now rewrite H.
  - intros headers data col clinicId Hidx Hall.
    destruct data as [|r data]; [reflexivity|].
    rewrite findClinic_unfold, Hidx by discriminate.
    apply scan_rows_None. eapply Forall_impl; [exact Hall|].
    intros row [H | H]; unfold row_matches; now rewrite H.
  - intros rows clinicId rec H. unfold findClinic in H.
    destruct (length rows <? 2)%nat; [discriminate|].
    destruct rows as [|headers data]; [discriminate|].
    destruct (findIndex is_clinicid_header headers) as [col|] eqn:Hidx; [|discriminate].
    apply scan_rows_Some in H as (i & row & Hi & Hm & _ & ->).
    apply row_matches_spec in Hm as (cell & Hc & Hne & Ht).
    now exists headers, data, col, i, row, cell.
  - intros headers data col i row cell Hidx Hi Hc Hne Ht Hlt.
    rewrite findClinic_unfold, Hidx by (now destruct data).
    apply (scan_rows_first _ _ _ _ i row Hi); [|assumption].
    apply row_matches_spec. now exists cell.
  - reflexivity.
  - vm_compute. reflexivity.
Qed.

Lemma findClinic_skips_empty_key_cells_witness :
  findClinic [["clinicid"; "x"]; []; [""; "a"]] "" = None /\
  findClinic [["clinicid"; "x"]; [""; "a"]; ["  "; "b"]] ""
  = Some (fill ["clinicid"; "x"] 0 ["  "; "b"] ∅).
Proof.
  split.
  - apply (proj1 (proj2 findClinic_skips_empty_key_cells) _ _ 0%nat); [reflexivity|].
    constructor; [left; reflexivity|]. constructor; [right; reflexivity|]. constructor.
  - apply (proj1 (proj2 (proj2 (proj2 findClinic_skips_empty_key_cells)))
             _ _ 0%nat 1%nat _ "  "); try reflexivity; [discriminate|].
    intros [|[|j]] r Hj Hr; [|lia|lia]. now injection Hr as <-.
Defined.

(** C10, as written, fails for one header name: when [__proto__] is in
    the header row, here twice, the returned record has no entry of that
    name, so the name is not mapped to the row's cell at its last
    position and the record has fewer entries than the header has
    distinct names. *)
Lemma duplicate_proto_header_fails :
  findClinic [["clinicid"; "__proto__"; "__proto__"]; ["7"; "x"; "y"]] "7"
  = Some {[ "clinicid" := "7" ]} /\
  ({[ "clinicid" := "7" ]} : gmap string string) !! "__proto__" = None /\
  size ({[ "clinicid" := "7" ]} : gmap string string) = 1%nat /\
  length (remove_dups ["clinicid"; "__proto__"; "__proto__"]) = 2%nat.
Proof. repeat split; vm_compute; reflexivity. Qed.

(** C10, amended. The record returned comes from the matched row, the
    first data row that passes the test of the loop at the located
    column. In it a header name other than [__proto__] that occurs at
    several columns holds that row's cell (or the empty string) at the
    last of them; such a name is a key exactly when it is in the header,
    and, [__proto__] aside, the record has one entry per distinct header
    name. *)
Theorem findClinic_duplicate_headers (rows : table) (clinicId : string)
    (rec : gmap string string) :
  findClinic rows clinicId = Some rec ->
  exists headers data col i row,
    rows = headers :: data /\
    findIndex is_clinicid_header headers = Some col /\
    data !! i = Some row /\ row_matches col clinicId row = true /\
    (forall j r, (j < i)%nat -> data !! j = Some r ->
                 row_matches col clinicId r = false) /\
    (forall name k,
        name <> "__proto__" ->
        headers !! k = Some name ->
        (forall j, (k < j)%nat -> headers !! j <> Some name) ->
        rec !! name = Some (cell_or_empty row k)) /\
    (forall name,
        name <> "__proto__" -> (is_Some (rec !! name) <-> name ∈ headers)) /\
    size (delete "__proto__" rec) = length (remove_dups (ordinary_names headers)).
Proof.
  intros H. unfold findClinic in H.
  destruct (length rows <? 2)%nat; [discriminate|].
  destruct rows as [|headers data]; [discriminate|].
  destruct (findIndex is_clinicid_header headers) as [col|] eqn:Hidx; [|discriminate].
  apply scan_rows_Some in H as (i & row & Hi & Hm & Hlt & ->).
  exists headers, data, col, i, row.
  split; [reflexivity|]. split; [exact Hidx|]. split; [assumption|].
  split; [assumption|]. split; [assumption|]. split; [|split].
  - intros name k Hp Hk Hlast. now rewrite (fill_lookup_last _ _ _ _ _ k Hp Hk Hlast).
  - intros name Hp. rewrite fill_is_Some by assumption. rewrite lookup_empty.
    split; [intros [Hin | [x Hx]]; [assumption | discriminate] | tauto].
  - rewrite fill_delete_proto. apply fill_size.
Qed.

Lemma findClinic_duplicate_headers_witness :
  findClinic [["clinicid"; "US_AVA"; "US_AVA"]; ["7"; "old"; "new"]] "7"
  = Some {[ "clinicid" := "7"; "US_AVA" := "new" ]} /\
  exists headers data col i row,
    [["clinicid"; "US_AVA"; "US_AVA"]; ["7"; "old"; "new"]] = headers :: data /\
    findIndex is_clinicid_header headers = Some col /\
    data !! i = Some row /\ row_matches col "7" row = true /\
    (forall j r, (j < i)%nat -> data !! j = Some r -> row_matches col "7" r = false) /\
    (forall name k,
        name <> "__proto__" ->
        headers !! k = Some name ->
        (forall j, (k < j)%nat -> headers !! j <> Some name) ->
        ({[ "clinicid" := "7"; "US_AVA" := "new" ]} : gmap string string) !! name
        = Some (cell_or_empty row k)) /\
    (forall name,
        name <> "__proto__" ->
        (is_Some (({[ "clinicid" := "7"; "US_AVA" := "new" ]} : gmap string string)
                    !! name)
         <-> name ∈ headers)) /\
    size (delete "__proto__"
            ({[ "clinicid" := "7"; "US_AVA" := "new" ]} : gmap string string))
    = length (remove_dups (ordinary_names headers)).
Proof.
  assert (findClinic [["clinicid"; "US_AVA"; "US_AVA"]; ["7"; "old"; "new"]] "7"
          = Some {[ "clinicid" := "7"; "US_AVA" := "new" ]}) as E
    by (vm_compute; reflexivity).
  split; [exact E|].
  exact (findClinic_duplicate_headers _ _ _ E).
Defined.

Lemma findIndex_ext {A : Type} (p q : A -> bool) (l : list A) :
  (forall x, p x = q x) -> findIndex p l = findIndex q l.
Proof. intros E. induction l as [|x l IH]; simpl; [reflexivity|]. now rewrite E, IH. Qed.

(** For a non-empty key value and a header row without the name
    [__proto__], the resolver is the specification's [resolve] at the key
    column [clinicid]. *)
Lemma findClinic_refines_resolve_spec (headers : list string)
    (data : list (list string)) (clinicId : string) :
  clinicId <> "" -> "__proto__" ∉ headers ->
  findClinic (headers :: data) clinicId
  = resolve_spec (headers :: data) "clinicid" clinicId.
Proof.
  intros Hk Hp. destruct data as [|r data]; [reflexivity|].
  rewrite findClinic_unfold by discriminate. unfold resolve_spec.
  rewrite (findIndex_ext is_clinicid_header
             (fun h => eq_ignore_case (trim h) "clinicid")).
  - destruct (findIndex _ headers) as [col|]; [|reflexivity].
    generalize (r :: data). intros l.
    induction l as [|row l IH]; [reflexivity|]. simpl.
    unfold row_matches. destruct (row !! col) as [cell|]; [|exact IH].
    destruct cell as [|c cell].
    + simpl. destruct clinicId; [contradiction | exact IH].
    + simpl truthy. rewrite andb_true_l.
      destruct (String.eqb _ clinicId); [|exact IH].
      now rewrite fill_zip_header.
  - intros h. unfold is_clinicid_header, eq_ignore_case.
    destruct h; [reflexivity | apply andb_true_l].
Qed.

(** ** Relative-time formatter *)

Lemma MS_PER_DAY_value : MS_PER_DAY = 86400000.
Proof. reflexivity. Qed.

Section TimeAgoFacts.
Variable Date_parse : string -> date_outcome.

Lemma timeAgo_blank (s : string) (now_cmp now_elapsed : Z) :
  trim s = "" -> timeAgo Date_parse (Some s) now_cmp now_elapsed = None.
Proof.
  intros H. unfold timeAgo. rewrite H. simpl. now rewrite orb_true_r.
Qed.

Lemma timeAgo_parsed (s : string) (now_cmp now_elapsed : Z) :
  trim s <> "" ->
  timeAgo Date_parse (Some s) now_cmp now_elapsed =
  match Date_parse s with
  | DateThrows => None
  | DateReturns InvalidDate => None
  | DateReturns (ValidDate lastUpdated) =>
      if now_cmp <? lastUpdated then Some "recently"
      else
        let daysSince := (now_elapsed - lastUpdated) / MS_PER_DAY in
        if daysSince =? 0 then Some "today"
        else if daysSince =? 1 then Some "yesterday"
        else if daysSince <? 7 then Some (pretty daysSince +:+ " days ago")
        else
          let weeksSince := daysSince / 7 in
          if weeksSince =? 1 then Some "1 week ago"
          else if weeksSince =? 2 then Some "2 weeks ago"
          else if 3 <=? weeksSince then Some "3+ weeks ago"
          else Some (pretty daysSince +:+ " days ago")
  end.
Proof.
  intros H. unfold timeAgo.
  assert (truthy s = true) as ->.
  { destruct s; [now contradiction H | reflexivity]. }
  simpl. destruct (String.eqb_spec (trim s) ""); [contradiction | reflexivity].
Qed.

End TimeAgoFacts.

(** C7. [timeAgo] returns nothing for an absent, empty or white-space-only
    input, for an input the date parser finds invalid, and when parsing
    throws. For a parsed instant [t]: strictly after now, the label is
    [recently]; otherwise, with [d] the floor of the elapsed milliseconds
    over the 86400000 milliseconds of a day, [d = 0] gives [today],
    [d = 1] [yesterday], 2 to 6 the decimal [d] followed by [days ago],
    7 to 13 [1 week ago], 14 to 20 [2 weeks ago], and 21 or more the
    literal [3+ weeks ago]. The clock is read twice, and is taken not to
    run backwards between the two readings. *)
Theorem timeAgo_labels (Date_parse : string -> date_outcome) (s : string)
    (now_cmp now_elapsed : Z) :
  now_cmp <= now_elapsed ->
  (timeAgo Date_parse None now_cmp now_elapsed = None) /\
  (trim s = "" -> timeAgo Date_parse (Some s) now_cmp now_elapsed = None) /\
  (Date_parse s = DateReturns InvalidDate ->
   timeAgo Date_parse (Some s) now_cmp now_elapsed = None) /\
  (Date_parse s = DateThrows ->
   timeAgo Date_parse (Some s) now_cmp now_elapsed = None) /\
  (forall t,
      trim s <> "" -> Date_parse s = DateReturns (ValidDate t) ->
      (now_cmp < t -> timeAgo Date_parse (Some s) now_cmp now_elapsed = Some "recently") /\
      (t <= now_cmp ->
       let d := (now_elapsed - t) / 86400000 in
       0 <= d /\
       (d = 0 -> timeAgo Date_parse (Some s) now_cmp now_elapsed = Some "today") /\
       (d = 1 -> timeAgo Date_parse (Some s) now_cmp now_elapsed = Some "yesterday") /\
       (2 <= d <= 6 ->
        timeAgo Date_parse (Some s) now_cmp now_elapsed = Some (pretty d +:+ " days ago")) /\
       (7 <= d <= 13 ->
        timeAgo Date_parse (Some s) now_cmp now_elapsed = Some "1 week ago") /\
       (14 <= d <= 20 ->
        timeAgo Date_parse (Some s) now_cmp now_elapsed = Some "2 weeks ago") /\
       (21 <= d ->
        timeAgo Date_parse (Some s) now_cmp now_elapsed = Some "3+ weeks ago"))).
Proof.
  intros Hclock. split; [reflexivity|]. split; [apply timeAgo_blank|].
  assert (forall o, Date_parse s = o ->
            (o = DateThrows \/ o = DateReturns InvalidDate) ->
            timeAgo Date_parse (Some s) now_cmp now_elapsed = None) as Hnone.
  { intros o Ho Hcase.
    destruct (String.eqb_spec (trim s) "") as [E|E]; [now apply timeAgo_blank|].
    rewrite timeAgo_parsed, Ho by assumption. now destruct Hcase as [-> | ->]. }
  split; [intros H; apply (Hnone _ H); now right|].
  split; [intros H; apply (Hnone _ H); now left|].
  intros t Hs Ht. rewrite timeAgo_parsed, Ht by assumption.
  change MS_PER_DAY with 86400000. split.
  - intros Hfut. apply Z.ltb_lt in Hfut. now rewrite Hfut.
  - intros Hpast. assert ((now_cmp <? t) = false) as -> by now apply Z.ltb_ge.
    cbv zeta. set (d := (now_elapsed - t) / 86400000).
    assert (0 <= d) as Hd by (apply Z.div_pos; lia).
    split; [assumption|].
    split; [intros ->; reflexivity|].
    split; [intros ->; reflexivity|].
    split; [|split; [|split]].
    + intros [H1 H2].
      assert ((d =? 0) = false) as -> by (apply Z.eqb_neq; lia).
      assert ((d =? 1) = false) as -> by (apply Z.eqb_neq; lia).
      assert ((d <? 7) = true) as -> by (apply Z.ltb_lt; lia).
      reflexivity.
    + intros [H1 H2].
      assert ((d =? 0) = false) as -> by (apply Z.eqb_neq; lia).
      assert ((d =? 1) = false) as -> by (apply Z.eqb_neq; lia).
      assert ((d <? 7) = false) as -> by (apply Z.ltb_ge; lia).
      assert (d / 7 = 1) as -> by (symmetry; apply (Z.div_unique d 7 1 (d - 7)); lia).
      reflexivity.
    + intros [H1 H2].
      assert ((d =? 0) = false) as -> by (apply Z.eqb_neq; lia).
      assert ((d =? 1) = false) as -> by (apply Z.eqb_neq; lia).
      assert ((d <? 7) = false) as -> by (apply Z.ltb_ge; lia).
      assert (d / 7 = 2) as -> by (symmetry; apply (Z.div_unique d 7 2 (d - 14)); lia).
      reflexivity.
    + intros H1.
      assert ((d =? 0) = false) as -> by (apply Z.eqb_neq; lia).
      assert ((d =? 1) = false) as -> by (apply Z.eqb_neq; lia).
      assert ((d <? 7) = false) as -> by (apply Z.ltb_ge; lia).
      assert (3 <= d / 7) as H3 by (apply Z.div_le_lower_bound; lia).
      assert ((d / 7 =? 1) = false) as -> by (apply Z.eqb_neq; lia).
      assert ((d / 7 =? 2) = false) as -> by (apply Z.eqb_neq; lia).
      assert ((3 <=? d / 7) = true) as -> by (apply Z.leb_le; lia).
      reflexivity.
Qed.

Lemma timeAgo_labels_witness :
  timeAgo sample_Date_parse (Some "2024-01-01T00:00:00Z")
    (1704067200000 + 13 * 86400000) (1704067200000 + 13 * 86400000 + 5)
  = Some "1 week ago".
Proof.
  destruct (timeAgo_labels sample_Date_parse "2024-01-01T00:00:00Z"
              (1704067200000 + 13 * 86400000) (1704067200000 + 13 * 86400000 + 5))
    as (_ & _ & _ & _ & H); [lia|].
  destruct (H 1704067200000) as [_ H']; [discriminate | reflexivity |].
  destruct H' as (_ & _ & _ & _ & Hweek & _); [lia|].
  apply Hweek. vm_compute. split; discriminate.
Defined.

Example timeAgo_spec_examples :
  let t := 1704067200000 in
  let parse := sample_Date_parse in
  let s := Some "2024-01-01T00:00:00Z" in
  timeAgo parse s t t = Some "today" /\
  timeAgo parse s (t + 25 * 3600000) (t + 25 * 3600000) = Some "yesterday" /\
  timeAgo parse s (t + 3 * 86400000) (t + 3 * 86400000) = Some "3 days ago" /\
  timeAgo parse s (t + 13 * 86400000) (t + 13 * 86400000) = Some "1 week ago" /\
  timeAgo parse s (t + 22 * 86400000) (t + 22 * 86400000) = Some "3+ weeks ago" /\
  timeAgo parse s (t - 3600000) (t - 3600000) = Some "recently" /\
  timeAgo parse (Some "not-a-date") t t = None /\
  timeAgo parse (Some "   ") t t = None.
Proof. vm_compute. repeat split. Qed.

(** ** Freshness cache *)

Lemma cacheDuration_value : cacheDuration = 300000.
Proof. reflexivity. Qed.

Section GetDataFacts.
Variable JSON_parse : string -> option json.
Variable JSON_stringify : json -> string.
Variable coerce : json -> number.

#[local] Abbreviation getData := (getData JSON_parse JSON_stringify coerce).
#[local] Abbreviation read_cache := (read_cache JSON_parse coerce).
#[local] Abbreviation fetch_fresh := (fetch_fresh JSON_stringify).
#[local] Abbreviation ToNumber := (ToNumber coerce).

Lemma fetch_fresh_log (w : world) : In (Fetch csvUrl) (log (fetch_fresh w)).
Proof.
  unfold Cache.fetch_fresh.
  destruct (fetched w) as [[ok [csvText | e]] | e]; simpl;
    try (destruct ok; simpl); try (destruct (setItem w _)); simpl; tauto.
Qed.

(** A fetch is performed exactly when the cache block falls through. *)
Lemma getData_fetches (w : world) :
  In (Fetch csvUrl) (log (getData w)) <->
  exists cached, getItem w = Returns cached /\
                 read_cache cached (now_read w) = Returns None.
Proof.
  unfold Cache.getData. destruct (getItem w) as [cached | e]; simpl.
  - destruct (read_cache cached (now_read w)) as [[[data timestamp] |] | e] eqn:E; simpl.
    + split; [tauto | now intros (c & [= <-] & H); rewrite E in H].
    + split; [now exists cached | intros _; apply fetch_fresh_log].
    + split; [tauto | now intros (c & [= <-] & H); rewrite E in H].
  - split; [tauto | now intros (c & H & _)].
Qed.

Lemma getData_miss (w : world) (cached : option string) :
  getItem w = Returns cached ->
  read_cache cached (now_read w) = Returns None ->
  getData w = fetch_fresh w.
Proof. intros H1 H2. unfold Cache.getData. now rewrite H1, H2. Qed.

Lemma read_cache_parsed (blob : string) (now : Z) (v : json) :
  blob <> "" -> JSON_parse blob = Some v ->
  read_cache (Some blob) now =
  match destructure v with
  | Throws e => Throws e
  | Returns (data, timestamp) =>
      if is_fresh coerce now timestamp then Returns (Some (data, timestamp))
      else Returns None
  end.
Proof.
  intros Hb Hp. unfold Cache.read_cache.
  apply truthy_true in Hb. now rewrite Hb, Hp.
Qed.

(** C1, on the code. A stored text that [JSON.parse] rejects makes the
    executor throw before any fetch: the promise is rejected with the
    [SyntaxError] and nothing is fetched; a text that parses to [null]
    rejects with the [TypeError] of the destructuring. Only a text that
    parses to a non-null value without a [timestamp] is treated as a
    miss. *)
Theorem getData_malformed_blob_rejects (w : world) (blob : string) :
  getItem w = Returns (Some blob) -> blob <> "" ->
  (JSON_parse blob = None ->
   getData w = {| settled := Rejected SyntaxError; log := [] |}) /\
  (JSON_parse blob = Some JNull ->
   getData w = {| settled := Rejected TypeError; log := [] |}) /\
  (forall v,
      JSON_parse blob = Some v -> v <> JNull -> get_prop v "timestamp" = None ->
      getData w = fetch_fresh w).
Proof.
  intros Hget Hb. apply truthy_true in Hb. split; [|split].
  - intros Hp. unfold Cache.getData, Cache.read_cache. now rewrite Hget, Hb, Hp.
  - intros Hp. unfold Cache.getData, Cache.read_cache. now rewrite Hget, Hb, Hp.
  - intros v Hp Hv Ht. unfold Cache.getData, Cache.read_cache.
    rewrite Hget, Hb, Hp. unfold destructure, is_fresh.
    destruct v; try contradiction; now rewrite Ht.
Qed.


(** C3. When a fetch was performed and answered with a successful
    response whose text is [csvText], and the write of the new envelope
    throws, [getData] still resolves, with the table tokenized from
    [csvText] and the timestamp read after tokenizing; the failure leaves
    a warning and is not propagated. *)
Theorem getData_write_failure_swallowed (w : world) (csvText : string) (e : error) :
  In (Fetch csvUrl) (log (getData w)) ->
  fetched w = Returns (Response true (Returns csvText)) ->
  setItem w (JSON_stringify (envelope (parseCSV csvText) (now_fetched w))) = Throws e ->
  getData w =
  {| settled := Resolved (Some (json_of_table (parseCSV csvText)))
                         (Some (JNumber (now_fetched w)));
     log := [Fetch csvUrl; Warn "NextAva Widget: Could not cache data"] |}.
Proof.
  intros Hfetch Hok Hset.
  apply getData_fetches in Hfetch as (cached & Hget & Hmiss).
  rewrite (getData_miss w cached Hget Hmiss).
  unfold Cache.fetch_fresh. rewrite Hok. simpl. now rewrite Hset.
Qed.

End GetDataFacts.

(** The worked examples of the cache. *)

Lemma getData_malformed_blob_rejects_witness :
  getData sample_JSON_parse sample_JSON_stringify sample_coerce world_malformed
  = {| settled := Rejected SyntaxError; log := [] |}.
Proof.
  apply (proj1 (getData_malformed_blob_rejects sample_JSON_parse sample_JSON_stringify
                  sample_coerce world_malformed "{not json" eq_refl
                  ltac:(discriminate))).
  reflexivity.
Defined.



Lemma getData_write_failure_swallowed_witness :
  getData sample_JSON_parse sample_JSON_stringify sample_coerce world_quota
  = {| settled := Resolved (Some (json_of_table sample_table)) (Some (JNumber 6000));
       log := [Fetch csvUrl; Warn "NextAva Widget: Could not cache data"] |}.
Proof.
  apply (getData_write_failure_swallowed sample_JSON_parse sample_JSON_stringify
           sample_coerce world_quota
           ("clinicid,US_AVA" +:+ NL +:+ "7,2 days" +:+ NL)
           (HostError "QuotaExceededError")).
  - simpl. tauto.
  - reflexivity.
  - reflexivity.
Defined.

Import Writer Render.

(** * Further properties *)

(** ** Tokenizer: terminator style, blank lines, unclosed quotes *)

Lemma parseCSV_leading_terminator (sep t : string) :
  is_terminator sep -> parseCSV (sep +:+ t) = parseCSV t.
Proof.
  intros Hsep. change (sep +:+ t) with ("" +:+ sep +:+ t).
  now rewrite parseCSV_boundary.
Qed.

(** X1. Outside quotes the three terminators are interchangeable, a
    second terminator right after one adds nothing, and terminators at
    the start of the text are skipped: blank lines never become rows. *)
Theorem parseCSV_terminator_style (t1 sep sep' t2 : string) :
  is_terminator sep -> is_terminator sep' -> inQuotes (scan t1) = false ->
  parseCSV (t1 +:+ sep +:+ t2) = parseCSV (t1 +:+ sep' +:+ t2) /\
  parseCSV (t1 +:+ sep +:+ sep' +:+ t2) = parseCSV (t1 +:+ sep +:+ t2) /\
  parseCSV (sep +:+ t2) = parseCSV t2.
Proof.
  intros Hsep Hsep' Hq. split; [|split].
  - now rewrite !parseCSV_boundary.
  - now rewrite !parseCSV_boundary, parseCSV_leading_terminator.
  - now apply parseCSV_leading_terminator.
Qed.

Lemma parseCSV_terminator_style_witness :
  parseCSV ("a,b" +:+ CRLF +:+ "c") = parseCSV ("a,b" +:+ NL +:+ "c") /\
  parseCSV ("a,b" +:+ CRLF +:+ NL +:+ "c") = parseCSV ("a,b" +:+ CRLF +:+ "c") /\
  parseCSV (CRLF +:+ "c") = parseCSV "c".
Proof.
  apply (parseCSV_terminator_style "a,b" CRLF NL "c").
  - right. left. reflexivity.
  - left. reflexivity.
  - reflexivity.
Defined.

(** Inside quotes, an escaped text is all data, each doubled quote read
    as one. *)
Lemma parse_loop_escape (s : string) :
  forall st, inQuotes st = true -> parse_loop (escape s) st = add_text s st.
Proof.
  induction s as [|c s IH]; intros st Hq.
  - now rewrite add_text_nil.
  - simpl escape. rewrite add_text_cons.
    destruct (Ascii.eqb_spec c DQUOTE) as [->|Hc].
    + rewrite parse_loop_cons, step_escaped_quote by (assumption || reflexivity).
      cbn [fst snd]. now apply IH.
    + rewrite parse_loop_cons, step_quoted_char by assumption. cbn [fst snd].
      now apply IH.
Qed.

(** X2. A quote opened at the start of a line and never closed, every
    later double quote being one of a doubled pair, takes the whole rest
    of the input, commas and line terminators included and each doubled
    quote read as one, as the single cell of one last row; when nothing
    follows the quote, no row is added. The tokenizer ends inside the
    quotes. *)
Theorem parseCSV_unclosed_quote (t1 sep s : string) :
  is_terminator sep -> inQuotes (scan t1) = false ->
  parseCSV (t1 +:+ sep +:+ DQ +:+ escape s)
  = parseCSV t1 ++ (if truthy s then [[s]] else []) /\
  inQuotes (scan (t1 +:+ sep +:+ DQ +:+ escape s)) = true.
Proof.
  intros Hsep Hq.
  assert (forall st, inQuotes st = false ->
            parse_loop (DQ +:+ escape s) st = add_text s (toggle_quotes st)) as Hopen.
  { intros st Hst. unfold DQ. rewrite append_cons, append_nil_l.
    rewrite parse_loop_cons, step_quote by now rewrite Hst. cbn [fst snd].
    apply parse_loop_escape. simpl. now rewrite Hst. }
  split.
  - rewrite parseCSV_boundary by assumption. f_equal.
    unfold parseCSV. rewrite Hopen by reflexivity.
    unfold end_row, pending, add_text. simpl. change ("" +:+ s) with s.
    now destruct (truthy s).
  - unfold scan in *.
    rewrite parse_loop_app_terminator by now apply peek_terminator.
    rewrite parse_loop_terminator by assumption.
    rewrite Hopen by now rewrite end_row_inQuotes.
    simpl. now rewrite end_row_inQuotes, Hq.
Qed.

Lemma parseCSV_unclosed_quote_witness :
  parseCSV ("id,n" +:+ NL +:+ DQ
            +:+ escape ("7,x" +:+ NL +:+ "8," +:+ DQ +:+ "y" +:+ DQ +:+ NL))
  = parseCSV "id,n" ++ [["7,x" +:+ NL +:+ "8," +:+ DQ +:+ "y" +:+ DQ +:+ NL]].
Proof.
  apply (proj1 (parseCSV_unclosed_quote "id,n" NL
                  ("7,x" +:+ NL +:+ "8," +:+ DQ +:+ "y" +:+ DQ +:+ NL)
                  ltac:(left; reflexivity) eq_refl)).
Defined.

(** ** Tokenizer: reading back what a minimal-quoting writer wrote *)

Lemma encodes_write_cell (s : string) : encodes (write_cell s) s.
Proof.
  unfold write_cell. destruct (plain_cell s) eqn:E;
    [now apply encodes_plain | apply encodes_quoted].
Qed.

Lemma terminator_not_quote (sep rest : string) :
  is_terminator sep -> is_char (peek (sep +:+ rest)) DQUOTE = false.
Proof. intros [-> | [-> | ->]]; reflexivity. Qed.

Lemma parse_row_with (sep : string) es cells :
  is_terminator sep ->
  Forall2 encodes es cells ->
  forall rest st,
    inQuotes st = false -> currentField st = "" ->
    emittable (currentLine st ++ cells) = true -> cells <> [] ->
    parse_loop (join_cells es +:+ sep +:+ rest) st =
    parse_loop rest (closed_row (lines st) (currentLine st ++ cells)).
Proof.
  intros Hsep.
  induction 1 as [|e s es cells He Hes IH]; intros rest st Hq Hf Hem Hne; [contradiction|].
  destruct Hes as [|e2 s2 es cells He2 Hes].
  - simpl join_cells. rewrite He by (assumption || now apply terminator_not_quote).
    rewrite parse_loop_terminator by assumption. f_equal.
    destruct st as [L cl cf q]. simpl in *. subst.
    unfold end_row, pending, add_text, closed_row. simpl.
    change ("" +:+ s) with s.
    destruct cl as [|a cl]; simpl in *; [now rewrite Hem|].
    now rewrite orb_true_r.
  - change (join_cells (e :: e2 :: es))
      with (e +:+ String COMMA (join_cells (e2 :: es))).
    rewrite append_assoc, append_cons.
    rewrite He by (assumption || reflexivity).
    rewrite parse_loop_cons, step_comma by assumption.
    cbn [fst snd].
    rewrite IH.
    + f_equal. destruct st as [L cl cf q]. simpl in *. subst.
      unfold closed_row. simpl. now rewrite <- app_assoc.
    + assumption.
    + reflexivity.
    + apply emittable_app. simpl. rewrite !length_app. simpl. lia.
    + discriminate.
Qed.

Lemma Forall2_encodes_write (r : list string) :
  Forall2 encodes (map write_cell r) r.
Proof. induction r; constructor; [apply encodes_write_cell | assumption]. Qed.

Lemma parse_written_table (sep : string) (t : table) :
  is_terminator sep ->
  Forall (fun r => emittable r = true) t ->
  forall front,
    parse_loop (serialize_with sep t) (prepend_lines front init) =
    prepend_lines (front ++ t) init.
Proof.
  intros Hsep. induction 1 as [|r t Hr Ht IH]; intros front.
  - simpl. now rewrite app_nil_r.
  - simpl serialize_with.
    rewrite (parse_row_with sep _ r Hsep (Forall2_encodes_write r))
      by (try reflexivity; try assumption; now apply emittable_nonempty).
    rewrite closed_row_prepend, IH.
    simpl. now rewrite app_nil_r, <- app_assoc.
Qed.

(** X3. A table written with minimal quoting (a cell is quoted, with its
    quotes doubled, exactly when it holds a quote, a comma or a line
    terminator) and any one of the three terminators after each row is
    read back unchanged, provided no row is empty or a single empty
    cell. *)
Theorem parseCSV_written_roundtrip (sep : string) (t : table) :
  is_terminator sep ->
  Forall (fun r => emittable r = true) t ->
  parseCSV (serialize_with sep t) = t.
Proof.
  intros Hsep Hem. unfold parseCSV.
  change init with (prepend_lines [] init).
  rewrite (parse_written_table sep t Hsep Hem). simpl. now rewrite app_nil_r.
Qed.

Lemma parseCSV_written_roundtrip_witness :
  parseCSV (serialize_with CRLF
              [["clinicid"; "NOTES_AVA"]; ["7"; "Closed Mon, Tue"]; ["8"; ""]])
  = [["clinicid"; "NOTES_AVA"]; ["7"; "Closed Mon, Tue"]; ["8"; ""]].
Proof.
  apply parseCSV_written_roundtrip.
  - right. left. reflexivity.
  - repeat constructor.
Defined.

(** ** Tokenizer: the output holds no more characters than the input *)

Lemma length_append (a b : string) :
  String.length (a +:+ b) = (String.length a + String.length b)%nat.
Proof.
  induction a as [|c a IH]; [reflexivity|].
  rewrite append_cons. simpl. now rewrite IH.
Qed.

Lemma row_size_app (a b : list string) :
  row_size (a ++ b) = (row_size a + row_size b)%nat.
Proof. induction a as [|x a IH]; simpl; [reflexivity|]. rewrite IH. lia. Qed.

Lemma table_size_app (a b : table) :
  table_size (a ++ b) = (table_size a + table_size b)%nat.
Proof. induction a as [|x a IH]; simpl; [reflexivity|]. rewrite IH. lia. Qed.

Lemma end_row_size (st : pstate) : state_size (end_row st) = state_size st.
Proof.
  destruct st as [L cl cf q]. unfold end_row, pending, state_size. simpl.
  destruct (truthy cf || (0 <? length cl)%nat); simpl; [|reflexivity].
  rewrite table_size_app. simpl. rewrite row_size_app. simpl. lia.
Qed.

Lemma step_size (c : ascii) (nxt : option ascii) (st : pstate) :
  (state_size (fst (step c nxt st)) <= state_size st + 1)%nat.
Proof.
  unfold step.
  destruct (Ascii.eqb c DQUOTE).
  - destruct (inQuotes st && is_char nxt DQUOTE); cbn [fst].
    + unfold state_size, add_char. simpl. rewrite length_append. simpl. lia.
    + unfold state_size, toggle_quotes. simpl. lia.
  - destruct (Ascii.eqb c COMMA && negb (inQuotes st)); cbn [fst].
    + unfold state_size, push_field. simpl. rewrite row_size_app. simpl. lia.
    + destruct ((Ascii.eqb c LF || Ascii.eqb c CR) && negb (inQuotes st)); cbn [fst].
      * rewrite end_row_size. lia.
      * unfold state_size, add_char. simpl. rewrite length_append. simpl. lia.
Qed.

Lemma parse_loop_size (t : string) :
  forall st, (state_size (parse_loop t st) <= state_size st + String.length t)%nat.
Proof.
  induction t as [|c rest IH IH'] using string_skip_ind; intros st; [simpl; lia|].
  rewrite parse_loop_cons.
  pose proof (step_size c (peek rest) st) as Hs.
  destruct (snd (step c (peek rest) st)).
  - destruct rest as [|d rest'].
    + specialize (IH (fst (step c (peek "") st))). simpl in *. lia.
    + specialize (IH' d rest' eq_refl (fst (step c (peek (String d rest')) st))).
      simpl in *. lia.
  - specialize (IH (fst (step c (peek rest) st))). simpl in *. lia.
Qed.

(** X4. The tokenizer never invents characters: the cells of the result
    hold together at most as many characters as the input, so no cell is
    longer than the input. *)
Theorem parseCSV_size (text : string) :
  (table_size (parseCSV text) <= String.length text)%nat /\
  Forall (fun r => Forall (fun cell => (String.length cell <= String.length text)%nat) r)
         (parseCSV text).
Proof.
  assert (table_size (parseCSV text) <= String.length text)%nat as H.
  { unfold parseCSV.
    pose proof (end_row_size (parse_loop text init)) as He.
    pose proof (parse_loop_size text init) as Hp.
    destruct (end_row (parse_loop text init)) as [L cl cf q].
    unfold state_size in *. simpl in *. lia. }
  split; [exact H|].
  revert H. generalize (String.length text) as n. generalize (parseCSV text) as t.
  induction t as [|r t IH]; intros n H; constructor.
  - simpl in H. assert (row_size r <= n)%nat as Hr by lia. clear -Hr.
    induction r as [|cell r IHr]; constructor; simpl in Hr; [lia|]. apply IHr. lia.
  - apply IH. simpl in H. lia.
Qed.

(** ** Trimming is idempotent *)

Lemma trimEnd_idem (s : string) : trimEnd (trimEnd s) = trimEnd s.
Proof.
  induction s as [|c s IH]; [reflexivity|].
  simpl. destruct (trimEnd s) as [|d kept] eqn:E.
  - destruct (is_whitespace c) eqn:Ec; [reflexivity|]. simpl. now rewrite Ec.
  - change (trimEnd (String c (String d kept)))
      with (match trimEnd (String d kept) with
            | EmptyString =>
                if is_whitespace c then EmptyString else String c EmptyString
            | kept' => String c kept'
            end).
    now rewrite IH.
Qed.

Lemma trimStart_head (s : string) :
  trimStart s = "" \/
  exists c r, trimStart s = String c r /\ is_whitespace c = false.
Proof.
  induction s as [|c s IH]; [now left|].
  simpl. destruct (is_whitespace c) eqn:Ec; [exact IH|].
  right. now exists c, s.
Qed.

Lemma trimEnd_keeps_head (c : ascii) (r : string) :
  is_whitespace c = false -> trimEnd (String c r) = String c (trimEnd r).
Proof. intros Hc. simpl. destruct (trimEnd r); [now rewrite Hc | reflexivity]. Qed.

Lemma trim_idem (s : string) : trim (trim s) = trim s.
Proof.
  unfold trim. destruct (trimStart_head s) as [-> | (c & r & -> & Hc)]; [reflexivity|].
  rewrite (trimEnd_keeps_head c r Hc). simpl trimStart. rewrite Hc.
  rewrite <- (trimEnd_keeps_head c r Hc). apply trimEnd_idem.
Qed.

(** ** Resolver: key values that cannot resolve, and appended rows *)

(** X5. The key value is compared as it is with trimmed cells, so a key
    value with white space at either end resolves to nothing. *)
Theorem findClinic_untrimmed_key (rows : table) (clinicId : string) :
  trim clinicId <> clinicId -> findClinic rows clinicId = None.
Proof.
  intros Hk. destruct (findClinic rows clinicId) as [rec|] eqn:E; [|reflexivity].
  exfalso. apply Hk. unfold findClinic in E.
  destruct (length rows <? 2)%nat; [discriminate|].
  destruct rows as [|headers data]; [discriminate|].
  destruct (findIndex is_clinicid_header headers) as [col|]; [|discriminate].
  apply scan_rows_Some in E as (i & row & _ & Hm & _ & _).
  apply row_matches_spec in Hm as (cell & _ & _ & <-). apply trim_idem.
Qed.

Lemma findClinic_untrimmed_key_witness :
  findClinic [["clinicid"; "US_AVA"]; ["7"; "2 days"]] " 7" = None.
Proof. apply findClinic_untrimmed_key. discriminate. Defined.

Lemma scan_rows_app headers col clinicId (data more : list (list string)) rec :
  scan_rows headers col clinicId data = Some rec ->
  scan_rows headers col clinicId (data ++ more) = Some rec.
Proof.
  induction data as [|r data IH]; simpl; [discriminate|].
  destruct (row_matches col clinicId r); [trivial | exact IH].
Qed.

Lemma scan_rows_app_None headers col clinicId (data more : list (list string)) :
  scan_rows headers col clinicId data = None ->
  scan_rows headers col clinicId (data ++ more) = scan_rows headers col clinicId more.
Proof.
  induction data as [|r data IH]; simpl; [reflexivity|].
  destruct (row_matches col clinicId r); [discriminate | exact IH].
Qed.

(** X6. A record found in a table is still the one found after any rows
    are appended to the table. *)
Theorem findClinic_appended_rows (rows more : table) (clinicId : string)
    (rec : gmap string string) :
  findClinic rows clinicId = Some rec ->
  findClinic (rows ++ more) clinicId = Some rec.
Proof.
  intros H. unfold findClinic in H.
  destruct (length rows <? 2)%nat eqn:Hlen; [discriminate|].
  destruct rows as [|headers data]; [discriminate|].
  destruct data as [|r data]; [discriminate|].
  change ((headers :: r :: data) ++ more) with (headers :: (r :: data) ++ more).
  rewrite findClinic_unfold by discriminate.
  destruct (findIndex is_clinicid_header headers) as [col|]; [|discriminate].
  now apply scan_rows_app.
Qed.

Lemma findClinic_appended_rows_witness :
  findClinic ([["clinicid"; "US_AVA"]; ["7"; "today"]] ++ [["7"; "later"]]) "7"
  = Some {[ "clinicid" := "7"; "US_AVA" := "today" ]}.
Proof.
  apply findClinic_appended_rows. vm_compute. reflexivity.
Defined.

(** ** Relative-time formatter: the labels it can give *)

(** X7. With a clock that does not run backwards, every label [timeAgo]
    gives is one of eleven fixed texts; the final [days ago] return of
    the source is never reached with seven days or more. *)
Theorem timeAgo_vocabulary (Date_parse : string -> date_outcome)
    (timestampString : option string) (now_cmp now_elapsed : Z) (label : string) :
  now_cmp <= now_elapsed ->
  timeAgo Date_parse timestampString now_cmp now_elapsed = Some label ->
  In label ["recently"; "today"; "yesterday"; "2 days ago"; "3 days ago";
            "4 days ago"; "5 days ago"; "6 days ago"; "1 week ago";
            "2 weeks ago"; "3+ weeks ago"].
Proof.
  intros Hclock H. destruct timestampString as [s|]; [|discriminate].
  destruct (String.eqb_spec (trim s) "") as [E|E];
    [now rewrite timeAgo_blank in H|].
  rewrite timeAgo_parsed in H by assumption.
  destruct (Date_parse s) as [[t|]|]; [|discriminate..].
  destruct (now_cmp <? t) eqn:Hfut; [injection H as <-; simpl; tauto|].
  apply Z.ltb_ge in Hfut. cbv zeta in H. change MS_PER_DAY with 86400000 in H.
  set (d := (now_elapsed - t) / 86400000) in *.
  assert (0 <= d) as Hd by (apply Z.div_pos; lia). clearbody d.
  destruct (d =? 0) eqn:E0; [injection H as <-; simpl; tauto|].
  destruct (d =? 1) eqn:E1; [injection H as <-; simpl; tauto|].
  apply Z.eqb_neq in E0, E1.
  destruct (d <? 7) eqn:E7.
  - apply Z.ltb_lt in E7. injection H as <-.
    assert (d = 2 \/ d = 3 \/ d = 4 \/ d = 5 \/ d = 6) as Hcases by lia.
    destruct Hcases as [-> | [-> | [-> | [-> | ->]]]]; vm_compute; tauto.
  - apply Z.ltb_ge in E7.
    assert (1 <= d / 7) as Hw by (apply Z.div_le_lower_bound; lia).
    destruct (d / 7 =? 1) eqn:E1'; [injection H as <-; simpl; tauto|].
    destruct (d / 7 =? 2) eqn:E2; [injection H as <-; simpl; tauto|].
    apply Z.eqb_neq in E1', E2.
    assert ((3 <=? d / 7) = true) as E3 by (apply Z.leb_le; lia).
    rewrite E3 in H. injection H as <-. simpl. tauto.
Qed.

Lemma timeAgo_vocabulary_witness :
  In "3 days ago"
     ["recently"; "today"; "yesterday"; "2 days ago"; "3 days ago";
      "4 days ago"; "5 days ago"; "6 days ago"; "1 week ago";
      "2 weeks ago"; "3+ weeks ago"].
Proof.
  apply (timeAgo_vocabulary sample_Date_parse (Some "2024-01-01T00:00:00Z")
           (1704067200000 + 3 * 86400000) (1704067200000 + 3 * 86400000 + 9)).
  - lia.
  - vm_compute. reflexivity.
Defined.

(** X8. When the clock is set back between the future check and the
    computation of the elapsed time, so that the elapsed time is
    negative, the label is the negative day count followed by
    [days ago]. *)
Theorem timeAgo_clock_set_back (Date_parse : string -> date_outcome) (s : string)
    (t now_cmp now_elapsed : Z) :
  trim s <> "" -> Date_parse s = DateReturns (ValidDate t) ->
  t <= now_cmp -> now_elapsed < t ->
  (now_elapsed - t) / 86400000 < 0 /\
  timeAgo Date_parse (Some s) now_cmp now_elapsed =
  Some (pretty ((now_elapsed - t) / 86400000) +:+ " days ago").
Proof.
  intros Hs Hp Hpast Hback.
  assert ((now_elapsed - t) / 86400000 < 0) as Hd
    by (apply Z.div_lt_upper_bound; lia).
  split; [exact Hd|].
  rewrite timeAgo_parsed, Hp by assumption.
  change MS_PER_DAY with 86400000. cbv zeta.
  set (d := (now_elapsed - t) / 86400000) in *. clearbody d.
  assert ((now_cmp <? t) = false) as -> by (apply Z.ltb_ge; lia).
  assert ((d =? 0) = false) as -> by (apply Z.eqb_neq; lia).
  assert ((d =? 1) = false) as -> by (apply Z.eqb_neq; lia).
  assert ((d <? 7) = true) as -> by (apply Z.ltb_lt; lia).
  reflexivity.
Qed.

Lemma timeAgo_clock_set_back_witness :
  timeAgo sample_Date_parse (Some "2024-01-01T00:00:00Z")
    1704067200000 (1704067200000 - 1)
  = Some "-1 days ago".
Proof.
  apply (proj2 (timeAgo_clock_set_back sample_Date_parse "2024-01-01T00:00:00Z"
                  1704067200000 1704067200000 (1704067200000 - 1)
                  ltac:(discriminate) eq_refl ltac:(lia) ltac:(lia))).
Defined.

(** ** Freshness cache: when it fetches, when it fails, what it stores *)

Section GetDataMore.
Variable JSON_parse : string -> option json.
Variable JSON_stringify : json -> string.
Variable coerce : json -> number.

#[local] Abbreviation getData := (getData JSON_parse JSON_stringify coerce).
#[local] Abbreviation read_cache := (read_cache JSON_parse coerce).
#[local] Abbreviation fetch_fresh := (fetch_fresh JSON_stringify).
#[local] Abbreviation ToNumber := (ToNumber coerce).






(** A store event in the log pins down the whole run. *)
Lemma stored_event_inv (w : world) (key blob : string) :
  In (Stored key blob) (log (getData w)) ->
  key = cacheKey /\
  exists csvText,
    fetched w = Returns (Response true (Returns csvText)) /\
    blob = JSON_stringify (envelope (parseCSV csvText) (now_fetched w)) /\
    setItem w blob = Returns tt /\
    getData w =
    {| settled := Resolved (Some (json_of_table (parseCSV csvText)))
                           (Some (JNumber (now_fetched w)));
       log := [Fetch csvUrl; Stored cacheKey blob] |}.
Proof.
  unfold Cache.getData.
  destruct (getItem w) as [cached | e0]; [|intros []].
  destruct (read_cache cached (now_read w)) as [[[data ts] |] | e0]; [intros [] | | intros []].
  unfold Cache.fetch_fresh.
  destruct (fetched w) as [[[|] [csvText | e1]] | e1]; simpl;
    try (intros [H | []]; discriminate).
  destruct (setItem w _) as [[] | e1] eqn:Hset; simpl.
  - intros [H | [H | []]]; [discriminate|]. injection H as <- <-.
    split; [reflexivity|]. exists csvText. now rewrite Hset.
  - intros [H | [H | []]]; discriminate.
Qed.

(** X11. Whatever [getData] writes to the store is written under the cache
    key, after a fetch answered ok, and is the serialized envelope of the
    table tokenized from the response with the time read after
    tokenizing; that run resolves with the same table and time. *)
Theorem getData_stored_envelope (w : world) (key blob : string) :
  In (Stored key blob) (log (getData w)) ->
  key = cacheKey /\
  exists csvText,
    fetched w = Returns (Response true (Returns csvText)) /\
    blob = JSON_stringify (envelope (parseCSV csvText) (now_fetched w)) /\
    setItem w blob = Returns tt /\
    getData w =
    {| settled := Resolved (Some (json_of_table (parseCSV csvText)))
                           (Some (JNumber (now_fetched w)));
       log := [Fetch csvUrl; Stored cacheKey blob] |}.
Proof. apply stored_event_inv. Qed.

(** X12. Reading back what was stored: when a call stored an envelope, the
    host parser reads that text back as the envelope, and a later call
    finds it in the store less than 300000 ms after its timestamp, the
    later call resolves with the same data and timestamp as the first
    and performs no fetch. *)
Theorem getData_second_call (w1 w2 : world) (key blob csvText : string) :
  fetched w1 = Returns (Response true (Returns csvText)) ->
  In (Stored key blob) (log (getData w1)) ->
  JSON_parse blob = Some (envelope (parseCSV csvText) (now_fetched w1)) ->
  blob <> "" ->
  getItem w2 = Returns (Some blob) ->
  now_read w2 - now_fetched w1 < 300000 ->
  getData w2 = {| settled := settled (getData w1); log := [] |}.
Proof.
  intros Hok Hst Hp Hb Hget Hage.
  apply stored_event_inv in Hst as (_ & csv & Hok' & _ & _ & ->).
  rewrite Hok in Hok'. injection Hok' as <-. simpl settled.
  unfold Cache.getData. rewrite Hget, (read_cache_parsed _ _ blob _ _ Hb Hp).
  simpl. unfold is_fresh. simpl. change cacheDuration with 300000.
  apply Z.ltb_lt in Hage. now rewrite Hage.
Qed.

(** X13. No stale fallback: with an envelope in the store whose age is
    300000 ms or more, a network failure or a response that is not ok
    rejects the promise; the expired data is not returned. *)
Theorem getData_stale_and_offline (w : world) (blob : string) (v : json)
    (data timestamp : option json) (t : Z) :
  getItem w = Returns (Some blob) -> blob <> "" ->
  JSON_parse blob = Some v -> destructure v = Returns (data, timestamp) ->
  ToNumber timestamp = Num t -> 300000 <= now_read w - t ->
  (forall e, fetched w = Throws e ->
             getData w = {| settled := Rejected e; log := [Fetch csvUrl] |}) /\
  (forall text, fetched w = Returns (Response false text) ->
                getData w = {| settled := Rejected (Error "Failed to fetch data");
                               log := [Fetch csvUrl] |}).
Proof.
  intros Hget Hb Hp Hd Ht Hage.
  assert (getData w = fetch_fresh w) as ->.
  { apply (getData_miss _ _ _ w (Some blob) Hget).
    rewrite (read_cache_parsed _ _ blob _ v Hb Hp), Hd. unfold is_fresh. rewrite Ht.
    change cacheDuration with 300000. apply Z.ltb_ge in Hage. now rewrite Hage. }
  unfold Cache.fetch_fresh. split.
  - now intros e ->.
  - now intros text ->.
Qed.

End GetDataMore.

(** The worked examples of the cache, continued. *)

Lemma getData_stored_envelope_witness :
  cacheKey = cacheKey /\
  exists csvText,
    sample_response = Returns (Response true (Returns csvText)) /\
    sample_blob = sample_JSON_stringify (envelope (parseCSV csvText) 1000) /\
    Returns tt = Returns tt /\
    getData sample_JSON_parse sample_JSON_stringify sample_coerce
      {| getItem := Returns None; now_read := 900; fetched := sample_response;
         now_fetched := 1000; setItem := fun _ => Returns tt |} =
    {| settled := Resolved (Some (json_of_table (parseCSV csvText)))
                           (Some (JNumber 1000));
       log := [Fetch csvUrl; Stored cacheKey sample_blob] |}.
Proof.
  apply (getData_stored_envelope sample_JSON_parse sample_JSON_stringify sample_coerce
           {| getItem := Returns None; now_read := 900; fetched := sample_response;
              now_fetched := 1000; setItem := fun _ => Returns tt |}
           cacheKey sample_blob).
  simpl. tauto.
Defined.

Lemma getData_second_call_witness :
  getData sample_JSON_parse sample_JSON_stringify sample_coerce (world_cached 5000) =
  {| settled :=
       settled (getData sample_JSON_parse sample_JSON_stringify sample_coerce
                  {| getItem := Returns None; now_read := 900;
                     fetched := sample_response; now_fetched := 1000;
                     setItem := fun _ => Returns tt |});
     log := [] |}.
Proof.
  apply (getData_second_call sample_JSON_parse sample_JSON_stringify sample_coerce
           {| getItem := Returns None; now_read := 900; fetched := sample_response;
              now_fetched := 1000; setItem := fun _ => Returns tt |}
           (world_cached 5000) cacheKey sample_blob
           ("clinicid,US_AVA" +:+ NL +:+ "7,2 days" +:+ NL)).
  - reflexivity.
  - simpl. tauto.
  - reflexivity.
  - discriminate.
  - reflexivity.
  - simpl. lia.
Defined.

Lemma getData_stale_and_offline_witness :
  getData sample_JSON_parse sample_JSON_stringify sample_coerce
    {| getItem := Returns (Some sample_blob); now_read := 301000;
       fetched := Throws (HostError "NetworkError"); now_fetched := 301001;
       setItem := fun _ => Returns tt |} =
  {| settled := Rejected (HostError "NetworkError"); log := [Fetch csvUrl] |}.
Proof.
  apply (proj1 (getData_stale_and_offline sample_JSON_parse sample_JSON_stringify
                  sample_coerce
                  {| getItem := Returns (Some sample_blob); now_read := 301000;
                     fetched := Throws (HostError "NetworkError");
                     now_fetched := 301001; setItem := fun _ => Returns tt |}
                  sample_blob (envelope sample_table 1000)
                  (Some (json_of_table sample_table)) (Some (JNumber 1000)) 1000
                  eq_refl ltac:(discriminate) eq_refl eq_refl eq_refl
                  ltac:(simpl; lia))).
  reflexivity.
Defined.

(** ** Presentation: the availability list *)

Lemma push_availabilities_app (keys : list (string * string))
    (clinic : gmap string string) :
  forall acc,
    push_availabilities keys clinic acc = acc ++ push_availabilities keys clinic [].
Proof.
  induction keys as [|[key label] keys IH]; intros acc; simpl.
  - now rewrite app_nil_r.
  - rewrite IH. symmetry. rewrite IH. symmetry.
    destruct (clinic !! key) as [value|]; [|reflexivity].
    destruct (truthy value && truthy (trim value)); [|reflexivity].
    now rewrite app_assoc.
Qed.

Lemma push_availabilities_cons (key label : string) (keys : list (string * string))
    (clinic : gmap string string) :
  push_availabilities ((key, label) :: keys) clinic [] =
  (if present (clinic !! key)
   then [{| name := label; availability := trim (default "" (clinic !! key)) |}]
   else [])
  ++ push_availabilities keys clinic [].
Proof.
  simpl. rewrite push_availabilities_app. unfold present.
  destruct (clinic !! key) as [value|]; [|reflexivity].
  now destruct (truthy value && truthy (trim value)).
Qed.

Lemma present_spec (value : option string) :
  present value = true <-> exists v, value = Some v /\ trim v <> "".
Proof.
  unfold present. destruct value as [v|].
  - rewrite andb_true_iff, !truthy_true. split.
    + intros [_ H]. now exists v.
    + intros (v' & [= <-] & H). split; [|assumption]. now intros ->.
  - split; [discriminate | now intros (v & H & _)].
Qed.

Lemma In_push_availabilities (keys : list (string * string))
    (clinic : gmap string string) (it : item) :
  In it (push_availabilities keys clinic []) <->
  exists key v,
    In (key, name it) keys /\ clinic !! key = Some v /\
    trim v <> "" /\ availability it = trim v.
Proof.
  induction keys as [|[key label] keys IH].
  - simpl. split; [tauto | now intros (k & v & [] & _)].
  - rewrite push_availabilities_cons, in_app_iff, IH. split.
    + intros [H | (k & v & Hk & H)].
      * destruct (present (clinic !! key)) eqn:Hp; [|destruct H].
        apply present_spec in Hp as (v & Hv & Hne).
        destruct H as [<- | []]. exists key, v. rewrite Hv. simpl. tauto.
      * exists k, v. simpl. tauto.
    + intros (k & v & [E | Hk] & Hv & Hne & Ha).
      * injection E as <- El. left.
        assert (present (clinic !! key) = true) as ->
          by (apply present_spec; now exists v).
        rewrite Hv. simpl. left. destruct it as [n a]. simpl in *. now subst.
      * right. now exists k, v.
Qed.

(** X14. An item is listed exactly when it carries the label of a modality
    whose field in the record has a value that is not empty or white
    space only, and its text is that value trimmed; listed texts are
    non-empty and already trimmed. *)
Theorem availabilities_listed (clinic : gmap string string) (it : item) :
  (In it (availabilities_of clinic) <->
   exists key v,
     In (key, name it) modalities /\ clinic !! key = Some v /\
     trim v <> "" /\ availability it = trim v) /\
  (In it (availabilities_of clinic) ->
   availability it <> "" /\ trim (availability it) = availability it).
Proof.
  split; [apply In_push_availabilities|].
  intros H. apply In_push_availabilities in H as (key & v & _ & _ & Hne & ->).
  split; [assumption | apply trim_idem].
Qed.

Lemma sublist_names (keys : list (string * string)) (clinic : gmap string string) :
  sublist (map name (push_availabilities keys clinic [])) (map snd keys).
Proof.
  induction keys as [|[key label] keys IH]; [constructor|].
  rewrite push_availabilities_cons. destruct (present (clinic !! key)); simpl.
  - now apply sublist_skip.
  - now apply sublist_cons.
Qed.

(** X15. The listed labels follow the fixed order of [CONFIG.modalities],
    without repetition, and there are at most five of them. *)
Theorem availabilities_order (clinic : gmap string string) :
  sublist (map name (availabilities_of clinic))
          ["X-Ray"; "Ultrasound"; "Vascular Ultrasound"; "Bone Density Scan";
           "Mammogram"] /\
  NoDup (map name (availabilities_of clinic)) /\
  (length (availabilities_of clinic) <= 5)%nat.
Proof.
  pose proof (sublist_names modalities clinic) as H.
  change (map snd modalities)
    with ["X-Ray"; "Ultrasound"; "Vascular Ultrasound"; "Bone Density Scan";
          "Mammogram"] in H.
  split; [exact H|]. split.
  - refine (sublist_NoDup _ _ _ H).
    repeat (constructor; [rewrite ?elem_of_cons, elem_of_nil; intuition discriminate|]).
    constructor.
  - apply sublist_length in H. rewrite length_map in H. exact H.
Qed.

(** X16. The list depends on the record only through its five modality
    fields. *)
Theorem availabilities_frame (clinic clinic' : gmap string string) :
  (forall key, In key ["XRAY_AVA"; "US_AVA"; "VUS_AVA"; "BMD_AVA"; "MAMMO_AVA"] ->
               clinic !! key = clinic' !! key) ->
  availabilities_of clinic = availabilities_of clinic'.
Proof.
  intros H. unfold availabilities_of, modalities.
  rewrite !push_availabilities_cons. simpl push_availabilities.
  rewrite !(H _) by (simpl; tauto). reflexivity.
Qed.

Lemma availabilities_frame_witness :
  availabilities_of {[ "US_AVA" := " 2 days "; "NOTES_AVA" := "call first" ]} =
  availabilities_of {[ "US_AVA" := " 2 days "; "clinicid" := "7" ]}.
Proof.
  apply availabilities_frame.
  intros key [<- | [<- | [<- | [<- | [<- | []]]]]]; vm_compute; reflexivity.
Defined.

(** ** Presentation: what a card implies *)

(** X17. What a card implies: the container exists, a clinic was found,
    the items are its availability list and there is at least one; the
    note, when shown, is the trimmed non-empty [NOTES_AVA] field; the
    update line, when shown, is the label [timeAgo] gives for
    [AVA_TIMESTAMP], and only when [showUpdated] is set. A clinic with no
    listed modality never shows its note or update time. *)
Theorem render_card (Date_parse : string -> date_outcome) (container : bool)
    (cfg : settings) (clinic : option (gmap string string)) (now_cmp now_elapsed : Z)
    (items : list item) (color : string) (note updated : option string)
    (branding : bool) :
  render Date_parse container cfg clinic now_cmp now_elapsed
  = Some (Card items color note updated branding) ->
  container = true /\
  exists c,
    clinic = Some c /\ items = availabilities_of c /\ items <> [] /\
    color = customColor cfg /\ branding = negb (hideBranding cfg) /\
    (forall n, note = Some n ->
               exists raw, c !! "NOTES_AVA" = Some raw /\ n = trim raw /\ n <> "") /\
    (forall l, updated = Some l ->
               showUpdated cfg = true /\
               timeAgo Date_parse (c !! "AVA_TIMESTAMP") now_cmp now_elapsed = Some l).
Proof.
  unfold render. destruct container; [|discriminate]. simpl negb. cbv iota.
  destruct clinic as [c|]; [|discriminate].
  destruct (length (availabilities_of c) =? 0)%nat eqn:Hlen; [discriminate|].
  intros [= <- <- <- <- <-]. split; [reflexivity|]. exists c.
  split; [reflexivity|]. split; [reflexivity|]. split.
  { intros E. rewrite E in Hlen. discriminate. }
  split; [reflexivity|]. split; [reflexivity|]. split.
  - intros n Hn. destruct (c !! "NOTES_AVA") as [raw|]; [|discriminate].
    destruct (truthy raw && truthy (trim raw)) eqn:Ht; [|discriminate].
    injection Hn as <-. exists raw. split; [reflexivity|]. split; [reflexivity|].
    apply andb_prop in Ht as [_ Ht]. now apply truthy_true.
  - intros l Hl. destruct (showUpdated cfg); [|discriminate]. split; [reflexivity|].
    destruct (timeAgo Date_parse (c !! "AVA_TIMESTAMP") now_cmp now_elapsed)
      as [formattedTime|]; [|discriminate].
    destruct (truthy formattedTime); [|discriminate]. now injection Hl as <-.
Qed.

Lemma render_card_witness :
  render sample_Date_parse true
    {| hideBranding := false; customColor := "#059669"; showUpdated := true |}
    (Some {[ "US_AVA" := " 2 days ";
             "NOTES_AVA" := " call first ";
             "AVA_TIMESTAMP" := "2024-01-01T00:00:00Z" ]})
    1704067200000 1704067200000
  = Some (Card [{| name := "Ultrasound"; availability := "2 days" |}] "#059669"
               (Some "call first") (Some "today") true) /\
  exists c,
    Some ({[ "US_AVA" := " 2 days ";
             "NOTES_AVA" := " call first ";
             "AVA_TIMESTAMP" := "2024-01-01T00:00:00Z" ]} : gmap string string)
    = Some c /\
    [{| name := "Ultrasound"; availability := "2 days" |}] = availabilities_of c.
Proof.
  assert (render sample_Date_parse true
            {| hideBranding := false; customColor := "#059669"; showUpdated := true |}
            (Some {[ "US_AVA" := " 2 days ";
                     "NOTES_AVA" := " call first ";
                     "AVA_TIMESTAMP" := "2024-01-01T00:00:00Z" ]})
            1704067200000 1704067200000
          = Some (Card [{| name := "Ultrasound"; availability := "2 days" |}] "#059669"
                       (Some "call first") (Some "today") true)) as E
    by (vm_compute; reflexivity).
  split; [exact E|].
  destruct (render_card _ _ _ _ _ _ _ _ _ _ _ E) as (_ & c & Hc & Hi & _).
  now exists c.
Defined.
